(** * Verification of scripts/make_apple_touch_icon.py

    A shallow embedding of the icon generator and the proofs of its
    specification.

    Number model.  The script computes on Python floats.  The colour
    converter only uses [+ - * / abs % round] and comparisons, which are
    closed over the rationals: it is embedded over [Q], where it runs.  The
    polar converter needs [math.cos], [math.sin] and [math.pi]: it is embedded
    over the real numbers [R].  In both cases a float is read as the exact
    number it denotes and rounding error is left out. *)

From Stdlib Require Import ZArith QArith Qround Qabs Reals Lra Lia Psatz.
From Stdlib Require Import String Ascii List.
From Stdlib Require Import DecimalString DecimalPos DecimalZ HexadecimalString HexadecimalN.
From stdpp Require Import base gmap strings.
Import ListNotations.

Local Open Scope string_scope.

(* stdpp keeps [String.append] folded; the proofs below step through
   literals, so let simplification unfold it on a constructor. *)
#[local] Arguments String.append !s1 s2 : simpl nomatch.

(** ** Python primitives used by the script *)

Module Py.

Local Open Scope Q_scope.

(** [a % b] on floats: the result takes the sign of the divisor,
    [a - b * floor (a / b)]. *)
Definition mod_ (a b : Q) : Q := a - b * inject_Z (Qfloor (a / b)).

(** [a < b] *)
Definition ltb (a b : Q) : bool := negb (Qle_bool b a).

(** [int(round(q))]: [round] with one argument rounds to the nearest
    integer, ties going to the even neighbour, and already returns an
    [int]. *)
Definition round (q : Q) : Z :=
  let f := Qfloor q in
  match Qcompare (q - inject_Z f) (1 # 2) with
  | Lt => f
  | Gt => (f + 1)%Z
  | Eq => if Z.even f then f else (f + 1)%Z
  end.

(** Lowercase hexadecimal digits of a natural number, ["0"] for zero. *)
Definition hex (n : N) : string :=
  HexadecimalString.NilZero.string_of_uint (N.to_hex_uint n).

(** [format(n, "02x")]: sign-aware zero padding to width two.  A negative
    number already fills the width with its sign and one digit. *)
Definition format_02x (n : Z) : string :=
  if (n <? 0)%Z then "-" ++ hex (Z.to_N (- n))
  else
    let d := hex (Z.to_N n) in
    if (String.length d <? 2)%nat then "0" ++ d else d.

(** [str(n)] for an [int]. *)
Definition str_int (n : Z) : string :=
  DecimalString.NilZero.string_of_int (Z.to_int n).

(** The double quote and the newline, which the literals below contain. *)
Definition dq : string := String (ascii_of_nat 34) EmptyString.
Definition nl : string := String (ascii_of_nat 10) EmptyString.

(** An f-string is the concatenation of its literal and formatted
    pieces, in order. *)
Definition fstring (pieces : list string) : string :=
  fold_right String.append EmptyString pieces.

(** [sep.join(l)] *)
Fixpoint join (sep : string) (l : list string) : string :=
  match l with
  | [] => EmptyString
  | [s] => s
  | s :: rest => s ++ sep ++ join sep rest
  end.

(** [s.replace(old, new)] for a non-empty [old]: the occurrences of [old]
    are replaced from left to right without overlap.  [skip] counts the
    characters of a match still to be dropped. *)
Fixpoint replace_from (old new s : string) (skip : nat) : string :=
  match s with
  | EmptyString => EmptyString
  | String c s' =>
      match skip with
      | S k => replace_from old new s' k
      | O =>
          if String.prefix old s
          then new ++ replace_from old new s' (String.length old - 1)
          else String c (replace_from old new s' 0)
      end
  end.

Definition replace (s old new : string) : string := replace_from old new s 0.

(** [os.path.dirname] of [posixpath]: the part up to the last slash, with
    the trailing slashes removed unless it consists of slashes only. *)
Definition is_slash (c : ascii) : bool := Ascii.eqb c "/".

Fixpoint drop_while (f : ascii -> bool) (l : list ascii) : list ascii :=
  match l with
  | [] => []
  | c :: l' => if f c then drop_while f l' else l
  end.

Definition dirname (p : string) : string :=
  let head_rev := drop_while (fun c => negb (is_slash c)) (rev (list_ascii_of_string p)) in
  if forallb is_slash head_rev
  then string_of_list_ascii (rev head_rev)
  else string_of_list_ascii (rev (drop_while is_slash head_rev)).

(** [s.encode("utf-8")] for the 7-bit text the script produces: every
    character is its own byte. *)
Definition encode_utf8 (s : string) : list Byte.byte := list_byte_of_string s.

End Py.

(** ** The colour converter *)

Section Colour.

Local Open Scope Q_scope.

(** [hsl_to_hex], lines 36-59. *)
Definition hsl_to_hex (h s_pct l_pct : Q) : string :=
  let s := s_pct / 100 in
  let l := l_pct / 100 in
  let c := (1 - Qabs (2 * l - 1)) * s in
  let x := c * (1 - Qabs (Py.mod_ (h / 60) 2 - 1)) in
  let m := l - c / 2 in
  let '(r, g, b) :=
    if Py.ltb h 60 then (c, x, 0)
    else if Py.ltb h 120 then (x, c, 0)
    else if Py.ltb h 180 then (0, c, x)
    else if Py.ltb h 240 then (0, x, c)
    else if Py.ltb h 300 then (x, 0, c)
    else (c, 0, x) in
  ("#" ++ Py.format_02x (Py.round ((r + m) * 255))
       ++ Py.format_02x (Py.round ((g + m) * 255))
       ++ Py.format_02x (Py.round ((b + m) * 255)))%string.

End Colour.

(** The pattern [#[0-9a-f]{6}]. *)
Definition is_lower_hex (c : ascii) : bool :=
  let n := nat_of_ascii c in
  ((48 <=? n) && (n <=? 57) || (97 <=? n) && (n <=? 102))%nat.

Definition matches_hex_colour (s : string) : bool :=
  match s with
  | String "#" rest =>
      (String.length rest =? 6)%nat && forallb is_lower_hex (list_ascii_of_string rest)
  | _ => false
  end.


(** ** The polar converter *)

Section Geometry.

Local Open Scope R_scope.

(** [polar], lines 20-23. *)
Definition polar (cx cy r angle_deg : R) : R * R :=
  let rad := (angle_deg - 90) * PI / 180 in
  (cx + r * cos rad, cy + r * sin rad).

(** Euclidean distance between two points. *)
Definition dist (p q : R * R) : R :=
  sqrt ((fst p - fst q)² + (snd p - snd q)²).

End Geometry.

(** ** The petal path builder and the markup *)

(** The characters [repr] of a float can produce: digits, sign, point,
    exponent mark, and the letters of [inf] and [nan]. *)
Definition float_char (c : ascii) : bool :=
  existsb (Ascii.eqb c) (list_ascii_of_string "0123456789+-.einfa").

Definition float_text (s : string) : bool :=
  forallb float_char (list_ascii_of_string s).

Section Paths.

(** [format(x, "")] of a float inside an f-string, which is [repr(x)]. *)
Variable str_float : R -> string.

Local Open Scope R_scope.

(** [make_petal_path], lines 26-33. *)
Definition make_petal_path (cx cy petal_width angle : R) : string :=
  let c1 := polar cx cy petal_width (angle - 20) in
  let c2 := polar cx cy petal_width (angle + 20) in
  Py.fstring
    [ "M "; str_float cx; " "; str_float cy; " ";
      "C "; str_float (fst c1); " "; str_float (snd c1); " ";
      str_float (fst c2); " "; str_float (snd c2); " ";
      str_float cx; " "; str_float cy ].

End Paths.

(** The module-level constants, lines 13-17. *)
Definition BG_COLOR : string := "#ffdab9".
Definition OUTPUT_PATH : string := "public/apple-touch-icon.png".
Definition SIZE : Z := 180.

(** The pure part of [main], lines 64-91. *)
Module Main.
Section Markup.

Variable str_float : R -> string.

Local Open Scope R_scope.

Definition cx : R := IZR SIZE / 2.
Definition cy : R := IZR SIZE / 2.
Definition petals : nat := 8.
Definition petal_width : R := 80.
Definition center_radius : R := petal_width * 0.14.

Definition hue_flower : Q := 30%Q.
Definition hue_center : Q := (hue_flower - 20)%Q.
Definition petal_color : string := hsl_to_hex hue_flower 70%Q 50%Q.
Definition center_color : string := hsl_to_hex hue_center 65%Q 45%Q.

Definition segment : R := 360 / INR petals.
Definition starting_angle : R := 0.

(** The loop of lines 77-80 over [range(petals)]. *)
Definition angle (j : nat) : R := segment * INR j + starting_angle.

Definition paths : list string :=
  map (fun j => make_petal_path str_float cx cy petal_width (angle j))
      (seq 0 petals).

Definition path_d : string := Py.join " " paths.

(** The control points [c1] and [c2] that [make_petal_path] computes for
    the petals of the loop, in order. *)
Definition control_points : list (R * R) :=
  flat_map (fun j => [ polar cx cy petal_width (angle j - 20);
                       polar cx cy petal_width (angle j + 20) ])
           (seq 0 petals).

(** One [<path>] element of the generator expression of line 87. *)
Definition path_element (p : string) : string :=
  Py.fstring [ "<path d="; Py.dq; p; Py.dq; "/>" ].

(** The triple-quoted f-string of lines 83-91. *)
Definition svg : string :=
  Py.fstring
    [ "<?xml version="; Py.dq; "1.0"; Py.dq; " encoding="; Py.dq; "UTF-8"; Py.dq; "?>"; Py.nl;
      "<svg xmlns="; Py.dq; "http://www.w3.org/2000/svg"; Py.dq;
      " viewBox="; Py.dq; "0 0 "; Py.str_int SIZE; " "; Py.str_int SIZE; Py.dq;
      " width="; Py.dq; Py.str_int SIZE; Py.dq;
      " height="; Py.dq; Py.str_int SIZE; Py.dq; ">"; Py.nl;
      "  <rect width="; Py.dq; "100%"; Py.dq; " height="; Py.dq; "100%"; Py.dq;
      " fill="; Py.dq; BG_COLOR; Py.dq; "/>"; Py.nl;
      "  <g fill="; Py.dq; petal_color; Py.dq; " stroke="; Py.dq; petal_color; Py.dq;
      " stroke-width="; Py.dq; "2"; Py.dq; ">"; Py.nl;
      "    "; Py.join EmptyString (map path_element paths); Py.nl;
      "  </g>"; Py.nl;
      "  <circle cx="; Py.dq; str_float cx; Py.dq; " cy="; Py.dq; str_float cy; Py.dq;
      " r="; Py.dq; str_float center_radius; Py.dq;
      " fill="; Py.dq; center_color; Py.dq; "/>"; Py.nl;
      "</svg>"; Py.nl ].

End Markup.
End Main.

(** ** The effects of [main], lines 93-109 *)

(** A raised exception, by whether it is an instance of [ImportError]
    (the class itself or a subclass such as [ModuleNotFoundError]). *)
Inductive exn : Type :=
| ImportErr (cls : string)
| OtherErr (cls : string).

Definition is_ImportError (e : exn) : bool :=
  match e with ImportErr _ => true | OtherErr _ => false end.

(** What a run can touch: the files and directories, and standard output
    as the list of printed lines. *)
Record world : Type := World {
  files : gmap string (list Byte.byte);
  dirs : gset string;
  stdout : list string
}.

(** What the surroundings answer: for each call that can fail, whether it
    raises, and the image the rasterizer draws. *)
Record env : Type := Env {
  makedirs_raises : string -> option exn;
  import_cairosvg_raises : option exn;
  svg2png_raises : list Byte.byte -> string -> Z -> Z -> option exn;
  rasterize : list Byte.byte -> Z -> Z -> list Byte.byte;
  open_raises : string -> option exn
}.

(** Statements are state transformers that return or raise. *)
Definition M (A : Type) : Type := world -> world * (exn + A).

Definition ret {A : Type} (a : A) : M A := fun w => (w, inr a).

Definition raise {A : Type} (e : exn) : M A := fun w => (w, inl e).

Definition bind {A B : Type} (m : M A) (k : A -> M B) : M B :=
  fun w =>
    match m w with
    | (w', inl e) => (w', inl e)
    | (w', inr a) => k a w'
    end.

Notation "m1 ;; m2" := (bind m1 (fun _ => m2))
  (at level 100, m2 at level 200, right associativity).

(** [try: body / except <class>: handler], the handler not naming the
    exception. *)
Definition try_except {A : Type} (body : M A) (catches : exn -> bool) (handler : M A) : M A :=
  fun w =>
    match body w with
    | (w', inl e) => if catches e then handler w' else (w', inl e)
    | (w', inr a) => (w', inr a)
    end.

Section Driver.

Variable str_float : R -> string.
Variable E : env.

Definition guard (r : option exn) : M unit :=
  match r with Some e => raise e | None => ret tt end.

(** [os.makedirs(d, exist_ok=True)] *)
Definition os_makedirs (d : string) : M unit :=
  guard (makedirs_raises E d) ;;
  fun w => (World (files w) ({[ d ]} ∪ dirs w) (stdout w), inr tt).

(** [import cairosvg] *)
Definition import_cairosvg : M unit := guard (import_cairosvg_raises E).

(** [cairosvg.svg2png(bytestring=b, write_to=p, output_width=w, output_height=h)] *)
Definition cairosvg_svg2png (b : list Byte.byte) (p : string) (width height : Z) : M unit :=
  guard (svg2png_raises E b p width height) ;;
  fun w => (World (<[ p := rasterize E b width height ]> (files w)) (dirs w) (stdout w), inr tt).

(** [with open(p, "w", encoding="utf-8") as f: f.write(text)] *)
Definition write_text (p text : string) : M unit :=
  guard (open_raises E p) ;;
  fun w => (World (<[ p := Py.encode_utf8 text ]> (files w)) (dirs w) (stdout w), inr tt).

(** [print(line)] *)
Definition print (line : string) : M unit :=
  fun w => (World (files w) (dirs w) (stdout w ++ [line])%list, inr tt).

Definition svg_path : string := Py.replace OUTPUT_PATH ".png" ".svg".

(** The two lines printed on the fallback path, lines 108-109. *)
Definition notice : string :=
  Py.fstring [ "Wrote "; svg_path;
               " (cairosvg not installed; run: pip install cairosvg, then re-run to get PNG)" ].

Definition hint : string :=
  "Or convert manually: cairosvg -o public/apple-touch-icon.png -W 180 -H 180 public/apple-touch-icon.svg".

(** [main], lines 62-109. *)
Definition main : M unit :=
  let svg := Main.svg str_float in
  os_makedirs (Py.dirname OUTPUT_PATH) ;;
  try_except
    (import_cairosvg ;;
     cairosvg_svg2png (Py.encode_utf8 svg) OUTPUT_PATH SIZE SIZE ;;
     print (Py.fstring [ "Wrote "; OUTPUT_PATH ]))
    is_ImportError
    (write_text svg_path svg ;;
     print notice ;;
     print hint).

(** The world once the output directory exists. *)
Definition with_output_dir (w : world) : world :=
  World (files w) ({[ Py.dirname OUTPUT_PATH ]} ∪ dirs w) (stdout w).

(** What the [try] body raises, if anything: the import first, then the
    rasterizer call. *)
Definition attempt_raises : option exn :=
  match import_cairosvg_raises E with
  | Some e => Some e
  | None => svg2png_raises E (Py.encode_utf8 (Main.svg str_float)) OUTPUT_PATH SIZE SIZE
  end.

End Driver.

(** ** Observers used in the statements *)

(** [s.split(sep)] for a one-character separator. *)
Fixpoint split_on (sep : ascii) (s : string) : list string :=
  match s with
  | EmptyString => [EmptyString]
  | String c s' =>
      if Ascii.eqb c sep then EmptyString :: split_on sep s'
      else match split_on sep s' with
           | [] => [String c EmptyString]
           | t :: ts => String c t :: ts
           end
  end.

(** The space-separated tokens of a path string. *)
Definition tokens (s : string) : list string := split_on " " s.

(** The tokens of a path string that are not numbers: its command
    letters, in order. *)
Definition commands (s : string) : list string :=
  List.filter (fun t => negb (float_text t)) (tokens s).

(** Number of positions of [s] at which [pat] occurs. *)
Fixpoint count_sub (pat s : string) : nat :=
  match s with
  | EmptyString => 0
  | String _ s' => (if String.prefix pat s then 1 else 0) + count_sub pat s'
  end.

(** The character [d] does not occur in [s]. *)
Definition no_char (d : ascii) (s : string) : bool :=
  forallb (fun c => negb (Ascii.eqb c d)) (list_ascii_of_string s).

(** Whether [p] is a prefix of [s ++ rest] does not depend on [rest]: [s]
    is long enough, or departs from [p] before it ends. *)
Fixpoint settled (p s : string) : bool :=
  match p, s with
  | EmptyString, _ => true
  | String _ _, EmptyString => false
  | String a p', String b s' => if Ascii.eqb a b then settled p' s' else true
  end.

(** At every [<] of [s], whether the tag [<p] starts there is settled
    inside [s]. *)
Fixpoint self_contained (p s : string) : bool :=
  match s with
  | EmptyString => true
  | String c s' => (negb (Ascii.eqb c "<") || settled p s') && self_contained p s'
  end.

(** The elements of the markup, written out attribute by attribute. *)
Definition attr (name value : string) : string :=
  Py.fstring [ " "; name; "="; Py.dq; value; Py.dq ].

Definition xml_declaration : string :=
  Py.fstring [ "<?xml"; attr "version" "1.0"; attr "encoding" "UTF-8"; "?>" ].

Definition svg_open (size : string) : string :=
  Py.fstring [ "<svg"; attr "xmlns" "http://www.w3.org/2000/svg";
               attr "viewBox" (Py.fstring [ "0 0 "; size; " "; size ]);
               attr "width" size; attr "height" size; ">" ].

Definition rect_element (fill : string) : string :=
  Py.fstring [ "<rect"; attr "width" "100%"; attr "height" "100%"; attr "fill" fill; "/>" ].

Definition group_open (colour : string) : string :=
  Py.fstring [ "<g"; attr "fill" colour; attr "stroke" colour; attr "stroke-width" "2"; ">" ].

Definition path_el (d : string) : string :=
  Py.fstring [ "<path"; attr "d" d; "/>" ].

Definition circle_element (cx cy r fill : string) : string :=
  Py.fstring [ "<circle"; attr "cx" cx; attr "cy" cy; attr "r" r; attr "fill" fill; "/>" ].

(** A point strictly inside the square canvas of side [SIZE]. *)
Definition inside_canvas (p : R * R) : Prop :=
  (0 < fst p < IZR SIZE /\ 0 < snd p < IZR SIZE)%R.

(** The characters of a path string: those of a number, the space and the
    two command letters. *)
Definition path_char (c : ascii) : bool :=
  float_char c || existsb (Ascii.eqb c) (list_ascii_of_string " MC").

(** A float formatter to run the statements on: the decimal text of the
    integer part. *)
Definition floor_str (x : R) : string := Py.str_int (Int_part x).

(** Surroundings to run the driver in: no rasterizer installed, nothing
    else failing, and nothing on disk yet. *)
Definition no_rasterizer : env :=
  Env (fun _ => None) (Some (ImportErr "ModuleNotFoundError"))
      (fun _ _ _ _ => None) (fun _ _ _ => []) (fun _ => None).

Definition empty_world : world := World ∅ ∅ [].

(** The import succeeds, and the rasterizer call raises an [ImportError]
    of its own. *)
Definition late_import_error : env :=
  Env (fun _ => None) None
      (fun _ _ _ _ => Some (ImportErr "ImportError")) (fun _ _ _ => []) (fun _ => None).

(** The package is there but cannot be loaded: the import raises an
    [OSError], as for a missing shared library. *)
Definition broken_install : env :=
  Env (fun _ => None) (Some (OtherErr "OSError"))
      (fun _ _ _ _ => None) (fun _ _ _ => []) (fun _ => None).

(** ** Facts about the Python primitives *)

Section PyFacts.

Local Open Scope Q_scope.

(** The primitives on the values the interpreter gives. *)
Example round_ties_to_even :
  Py.round (1 # 2) = 0%Z /\ Py.round (3 # 2) = 2%Z /\ Py.round (5 # 2) = 2%Z /\
  Py.round (- (1 # 2)) = 0%Z /\ Py.round (255 # 2) = 128%Z /\ Py.round (867 # 4) = 217%Z.
Proof. repeat split; reflexivity. Qed.

Example mod_sign_of_divisor :
  Py.mod_ (7 # 2) 2 == 3 # 2 /\ Py.mod_ (- (1)) 2 == 1 /\ Py.mod_ 2 2 == 0.
Proof. repeat split; reflexivity. Qed.

Example format_02x_values :
  Py.format_02x 0 = "00"%string /\ Py.format_02x 10 = "0a"%string /\
  Py.format_02x 255 = "ff"%string /\ Py.format_02x 256 = "100"%string /\
  Py.format_02x (-1) = "-1"%string.
Proof. repeat split; reflexivity. Qed.

Example replace_values :
  Py.replace "a.png.png" ".png" ".svg" = "a.svg.svg"%string /\
  Py.replace "pngp.pn" ".png" ".svg" = "pngp.pn"%string.
Proof. split; reflexivity. Qed.

Example dirname_values :
  Py.dirname "a/b/c.png" = "a/b"%string /\ Py.dirname "/x" = "/"%string /\
  Py.dirname "x" = EmptyString /\ Py.dirname "a//b" = "a"%string.
Proof. repeat split; reflexivity. Qed.

Example join_values :
  Py.join ", " [ "a"; "b"; "c" ]%string = "a, b, c"%string /\
  Py.join ", " [] = EmptyString.
Proof. split; reflexivity. Qed.

Lemma mod2_range (a : Q) : 0 <= Py.mod_ a 2 /\ Py.mod_ a 2 < 2.
Proof.
  unfold Py.mod_.
  pose proof (Qfloor_le (a / 2)) as Hlo.
  pose proof (Qlt_floor (a / 2)) as Hhi.
  rewrite inject_Z_plus in Hhi.
  change (inject_Z 1) with 1 in Hhi.
  set (f := inject_Z (Qfloor (a / 2))) in *.
  assert (Ha : a / 2 == a * (1 # 2)) by (unfold Qdiv; reflexivity).
  rewrite Ha in Hlo, Hhi.
  split; lra.
Qed.

Lemma round_range (q : Q) (lo hi : Z) :
  inject_Z lo <= q -> q <= inject_Z hi -> (lo <= Py.round q <= hi)%Z.
Proof.
  intros Hlo Hhi.
  assert (Hf1 : (lo <= Qfloor q)%Z).
  { rewrite <- (Qfloor_Z lo). now apply Qfloor_resp_le. }
  assert (Hf2 : (Qfloor q <= hi)%Z).
  { rewrite <- (Qfloor_Z hi). now apply Qfloor_resp_le. }
  unfold Py.round.
  destruct (Qcompare_spec (q - inject_Z (Qfloor q)) (1 # 2)) as [He | Hl | Hg].
  - (* a tie: q = f + 1/2 <= hi forces f < hi *)
    destruct (Z.even (Qfloor q)); [lia |].
    assert (Hlt : inject_Z (Qfloor q) < inject_Z hi) by lra.
    rewrite <- Zlt_Qlt in Hlt. lia.
  - lia.
  - assert (Hlt : inject_Z (Qfloor q) < inject_Z hi) by lra.
    rewrite <- Zlt_Qlt in Hlt. lia.
Qed.

Lemma format_02x_byte (n : Z) :
  (0 <= n <= 255)%Z ->
  String.length (Py.format_02x n) = 2%nat /\
  forallb is_lower_hex (list_ascii_of_string (Py.format_02x n)) = true.
Proof.
  intros Hn.
  assert (Hall : forallb
            (fun k => let s := Py.format_02x (Z.of_nat k) in
                      (String.length s =? 2)%nat &&
                      forallb is_lower_hex (list_ascii_of_string s))
            (seq 0 256) = true) by (vm_compute; reflexivity).
  rewrite forallb_forall in Hall.
  specialize (Hall (Z.to_nat n)).
  rewrite Z2Nat.id in Hall by lia.
  assert (Hin : In (Z.to_nat n) (seq 0 256)) by (apply in_seq; lia).
  apply Hall in Hin. cbv zeta in Hin.
  apply andb_prop in Hin as [Hlen Hhex].
  split; [now apply Nat.eqb_eq | exact Hhex].
Qed.

End PyFacts.

(** ** The colour converter: results *)

Section ColourFacts.

Local Open Scope Q_scope.

Lemma channel_range (v : Q) :
  0 <= v -> v <= 1 -> (0 <= Py.round (v * 255) <= 255)%Z.
Proof.
  intros H0 H1. apply round_range.
  - change (inject_Z 0) with 0. nra.
  - change (inject_Z 255) with 255. nra.
Qed.

Lemma channel_text (v : Q) :
  0 <= v -> v <= 1 ->
  String.length (Py.format_02x (Py.round (v * 255))) = 2%nat /\
  forallb is_lower_hex (list_ascii_of_string (Py.format_02x (Py.round (v * 255)))) = true.
Proof. intros H0 H1. now apply format_02x_byte, channel_range. Qed.

Lemma list_ascii_app (a b : string) :
  list_ascii_of_string (a ++ b) = (list_ascii_of_string a ++ list_ascii_of_string b)%list.
Proof. induction a as [| c a IH]; simpl; [reflexivity | now rewrite IH]. Qed.

Lemma str_length_app (a b : string) :
  String.length (a ++ b) = (String.length a + String.length b)%nat.
Proof. induction a as [| c a IH]; simpl; [reflexivity | now rewrite IH]. Qed.

Lemma three_channels (a b c : string) :
  String.length a = 2%nat -> String.length b = 2%nat -> String.length c = 2%nat ->
  forallb is_lower_hex (list_ascii_of_string a) = true ->
  forallb is_lower_hex (list_ascii_of_string b) = true ->
  forallb is_lower_hex (list_ascii_of_string c) = true ->
  matches_hex_colour ("#" ++ a ++ b ++ c) = true.
Proof.
  intros La Lb Lc Ha Hb Hc.
  change ("#" ++ a ++ b ++ c)%string with (String "#" (a ++ b ++ c)).
  unfold matches_hex_colour.
  rewrite !str_length_app, La, Lb, Lc, !list_ascii_app, !forallb_app, Ha, Hb, Hc.
  reflexivity.
Qed.

(** The chroma [c], the intermediate [x] and the offset [m] keep every
    channel between 0 and 1. *)
Lemma chroma_bounds (h s l : Q) :
  0 <= s -> s <= 1 -> 0 <= l -> l <= 1 ->
  let c := (1 - Qabs (2 * l - 1)) * s in
  let x := c * (1 - Qabs (Py.mod_ (h / 60) 2 - 1)) in
  let m := l - c / 2 in
  0 <= x /\ x <= c /\ 0 <= m /\ c + m <= 1.
Proof.
  intros Hs0 Hs1 Hl0 Hl1 c x m.
  destruct (mod2_range (h / 60)) as [Hm0 Hm2].
  set (t := Qabs (Py.mod_ (h / 60) 2 - 1)) in *.
  set (u := Qabs (2 * l - 1)) in *.
  assert (Ht : 0 <= t /\ t <= 1).
  { split; [apply Qabs_nonneg |]. apply Qabs_Qle_condition. split; lra. }
  assert (Hu : 0 <= u /\ u <= 1 /\ u >= 2 * l - 1 /\ u >= 1 - 2 * l).
  { split; [apply Qabs_nonneg |]. split; [apply Qabs_Qle_condition; split; lra |].
    split.
    - apply Qle_Qabs.
    - unfold u. rewrite <- Qabs_opp.
      eapply Qle_trans; [| apply Qle_Qabs]. lra. }
  assert (Hc : 0 <= c /\ c <= 1 - u) by (subst c; split; nra).
  assert (Hm : m == l - c * (1 # 2)) by (subst m; unfold Qdiv; reflexivity).
  subst x. repeat split; try nra; rewrite Hm; lra.
Qed.

End ColourFacts.

Section ColourResults.

Local Open Scope Q_scope.

(** Whatever the hue, percentages between 0 and 100 give three channel
    values between 0 and 255 and a string of the shape [#rrggbb]. *)
Lemma hsl_to_hex_shape (h s_pct l_pct : Q) :
  0 <= s_pct -> s_pct <= 100 -> 0 <= l_pct -> l_pct <= 100 ->
  matches_hex_colour (hsl_to_hex h s_pct l_pct) = true /\
  exists r g b : Z,
    hsl_to_hex h s_pct l_pct =
      ("#" ++ Py.format_02x r ++ Py.format_02x g ++ Py.format_02x b)%string /\
    (0 <= r <= 255)%Z /\ (0 <= g <= 255)%Z /\ (0 <= b <= 255)%Z.
Proof.
  intros Hs0 Hs1 Hl0 Hl1.
  assert (Hs : 0 <= s_pct / 100 /\ s_pct / 100 <= 1).
  { assert (Hd : s_pct / 100 == s_pct * (1 # 100)) by (unfold Qdiv; reflexivity).
    rewrite Hd. split; lra. }
  assert (Hl : 0 <= l_pct / 100 /\ l_pct / 100 <= 1).
  { assert (Hd : l_pct / 100 == l_pct * (1 # 100)) by (unfold Qdiv; reflexivity).
    rewrite Hd. split; lra. }
  destruct Hs as [Hs0' Hs1'], Hl as [Hl0' Hl1'].
  pose proof (chroma_bounds h _ _ Hs0' Hs1' Hl0' Hl1') as Hb.
  unfold hsl_to_hex. cbv zeta in Hb |- *.
  set (c := (1 - Qabs (2 * (l_pct / 100) - 1)) * (s_pct / 100)) in *.
  set (x := c * (1 - Qabs (Py.mod_ (h / 60) 2 - 1))) in *.
  set (m := l_pct / 100 - c / 2) in *.
  destruct Hb as (Hx0 & Hxc & Hm0 & Hcm).
  assert (Hc : 0 <= c + m /\ c + m <= 1) by (split; lra).
  assert (Hx : 0 <= x + m /\ x + m <= 1) by (split; lra).
  assert (Hz : 0 <= 0 + m /\ 0 + m <= 1) by (split; lra).
  destruct Hc as [Hc0 Hc1], Hx as [Hx0' Hx1], Hz as [Hz0 Hz1].
  destruct (channel_text _ Hc0 Hc1) as [Lc Tc].
  destruct (channel_text _ Hx0' Hx1) as [Lx Tx].
  destruct (channel_text _ Hz0 Hz1) as [Lz Tz].
  pose proof (channel_range _ Hc0 Hc1) as Rc.
  pose proof (channel_range _ Hx0' Hx1) as Rx.
  pose proof (channel_range _ Hz0 Hz1) as Rz.
  repeat match goal with |- context [if ?b then _ else _] => destruct b end;
    (split;
     [ apply three_channels; assumption
     | do 3 eexists; split; [reflexivity | repeat split; lia] ]).
Qed.

(** C3: for a hue in [0, 360) and a saturation and a lightness in
    [0, 100], [hsl_to_hex] returns a string matching [#[0-9a-f]{6}]: a
    hash sign followed by exactly six lowercase hexadecimal digits, the
    two-digit forms of three rounded channel values in [0, 255]. *)
Theorem hsl_to_hex_matches_pattern (h s_pct l_pct : Q) :
  0 <= h -> h < 360 ->
  0 <= s_pct -> s_pct <= 100 ->
  0 <= l_pct -> l_pct <= 100 ->
  matches_hex_colour (hsl_to_hex h s_pct l_pct) = true /\
  exists r g b : Z,
    hsl_to_hex h s_pct l_pct =
      ("#" ++ Py.format_02x r ++ Py.format_02x g ++ Py.format_02x b)%string /\
    (0 <= r <= 255)%Z /\ (0 <= g <= 255)%Z /\ (0 <= b <= 255)%Z.
Proof. intros _ _. apply hsl_to_hex_shape. Qed.

Lemma hsl_to_hex_matches_pattern_witness :
  matches_hex_colour (hsl_to_hex 30 70 50) = true.
Proof.
  apply (hsl_to_hex_matches_pattern 30 70 50); vm_compute; congruence.
Defined.

(** C4: the four reference colours: pure red, pure green, white and
    black. *)
Theorem hsl_to_hex_reference_values :
  hsl_to_hex 0 100 50 = "#ff0000"%string /\
  hsl_to_hex 120 100 50 = "#00ff00"%string /\
  hsl_to_hex 0 0 100 = "#ffffff"%string /\
  hsl_to_hex 0 0 0 = "#000000"%string.
Proof. repeat split; vm_compute; reflexivity. Qed.

(** The two colours of the icon. *)
Lemma petal_color_value : Main.petal_color = "#d98026"%string.
Proof. vm_compute. reflexivity. Qed.

Lemma center_color_value : Main.center_color = "#bd4128"%string.
Proof. vm_compute. reflexivity. Qed.

End ColourResults.

(** ** The polar converter: results *)

Section GeometryResults.

Local Open Scope R_scope.

Lemma polar_offsets (cx cy r a : R) :
  fst (polar cx cy r a) - cx = r * cos ((a - 90) * PI / 180) /\
  snd (polar cx cy r a) - cy = r * sin ((a - 90) * PI / 180).
Proof. unfold polar; simpl; split; ring. Qed.

(** For any real [r], negative ones included, the point is at distance
    [|r|] from the centre. *)
Lemma polar_distance_abs (cx cy r theta : R) :
  dist (polar cx cy r theta) (cx, cy) = Rabs r.
Proof.
  unfold dist. cbn [fst snd].
  destruct (polar_offsets cx cy r theta) as [-> ->].
  set (t := (theta - 90) * PI / 180).
  replace ((r * cos t)² + (r * sin t)²) with (r² * ((sin t)² + (cos t)²))
    by (unfold Rsqr; ring).
  rewrite sin2_cos2, Rmult_1_r.
  apply sqrt_Rsqr_abs.
Qed.

(** C1, amended: the point returned by [polar cx cy r theta] lies at
    Euclidean distance [|r|] from the centre [(cx, cy)], for every centre,
    every real [r] and every angle; so at distance [r] itself exactly when
    [r] is not negative. *)
Theorem polar_distance_is_abs_radius (cx cy r theta : R) :
  dist (polar cx cy r theta) (cx, cy) = Rabs r /\
  (0 <= r -> dist (polar cx cy r theta) (cx, cy) = r) /\
  (r < 0 -> dist (polar cx cy r theta) (cx, cy) <> r).
Proof.
  rewrite polar_distance_abs. split; [reflexivity |]. split.
  - intros Hr. now apply Rabs_pos_eq.
  - intros Hr. rewrite (Rabs_left r Hr). lra.
Qed.

Lemma polar_distance_is_abs_radius_witness :
  dist (polar 90 90 80 45) (90, 90) = 80.
Proof.
  apply (proj1 (proj2 (polar_distance_is_abs_radius 90 90 80 45))). lra.
Defined.

(** C1 as stated fails for a negative radius, which [polar] accepts: the
    point for radius -1 is at distance 1 from the centre, not -1. *)
Lemma polar_distance_negative_radius :
  dist (polar 0 0 (-1) 0) (0, 0) <> -1.
Proof.
  rewrite polar_distance_abs, (Rabs_left (-1)) by lra. lra.
Qed.

(** The angle convention over the exact reals: angle 0 points straight
    up and angle 90 to the right, so angles grow clockwise on a canvas whose y
    axis points down.  The first equation rests on [cos (- PI / 2) = 0]; the
    binary64 cosine of the rounded [- pi / 2] is about 6e-17 instead, so on
    floats it holds up to rounding only. *)
Lemma polar_angle_convention (cx cy r : R) :
  polar cx cy r 0 = (cx, cy - r) /\
  polar cx cy r 90 = (cx + r, cy) /\
  forall angle_deg,
    polar cx cy r angle_deg =
    (cx + r * cos ((angle_deg - 90) * PI / 180),
     cy + r * sin ((angle_deg - 90) * PI / 180)).
Proof.
  split; [| split].
  - unfold polar.
    replace ((0 - 90) * PI / 180) with (- (PI / 2)) by field.
    rewrite cos_neg, sin_neg, cos_PI2, sin_PI2.
    f_equal; ring.
  - unfold polar.
    replace ((90 - 90) * PI / 180) with 0 by field.
    rewrite cos_0, sin_0.
    f_equal; ring.
  - intros angle_deg. reflexivity.
Qed.

(** The rest of the clock face: 180 degrees points down, 270 to the
    left. *)
Lemma polar_down_left (cx cy r : R) :
  polar cx cy r 180 = (cx, cy + r) /\ polar cx cy r 270 = (cx - r, cy).
Proof.
  split; unfold polar.
  - replace ((180 - 90) * PI / 180) with (PI / 2) by field.
    rewrite cos_PI2, sin_PI2. f_equal; ring.
  - replace ((270 - 90) * PI / 180) with PI by field.
    rewrite cos_PI, sin_PI. f_equal; ring.
Qed.

(** A radius of zero puts every point on the centre. *)
Lemma polar_zero_radius (cx cy a : R) : polar cx cy 0 a = (cx, cy).
Proof. unfold polar. f_equal; ring. Qed.

(** Around the centre of the icon every point at the petal radius keeps
    both coordinates between 10 and 170. *)
Lemma polar_icon_box (a : R) :
  let p := polar Main.cx Main.cy Main.petal_width a in
  10 <= fst p <= 170 /\ 10 <= snd p <= 170.
Proof.
  unfold polar, Main.cx, Main.cy, Main.petal_width, SIZE. cbn [fst snd].
  set (t := (a - 90) * PI / 180).
  pose proof (COS_bound t). pose proof (SIN_bound t).
  split; lra.
Qed.

(** C10: every control point of every petal path of the driver has both
    coordinates in [10, 170], hence lies strictly inside the 180 x 180
    canvas. *)
Theorem control_points_inside_canvas :
  Forall (fun p => (10 <= fst p <= 170 /\ 10 <= snd p <= 170) /\ inside_canvas p)
         Main.control_points.
Proof.
  unfold Main.control_points.
  apply List.Forall_forall. intros p Hin.
  apply in_flat_map in Hin as (j & _ & Hp).
  assert (Hbox : 10 <= fst p <= 170 /\ 10 <= snd p <= 170).
  { destruct Hp as [<- | [<- | []]]; apply polar_icon_box. }
  split; [exact Hbox |].
  unfold inside_canvas, SIZE. lra.
Qed.

End GeometryResults.

(** ** Strings: splitting and joining *)

Section StringFacts.

Lemma append_empty_r (s : string) : (s ++ EmptyString)%string = s.
Proof. induction s as [| c s IH]; simpl; [reflexivity | now rewrite IH]. Qed.

Lemma float_text_no_char (d : ascii) (s : string) :
  float_char d = false -> float_text s = true -> no_char d s = true.
Proof.
  intros Hd. unfold float_text, no_char.
  induction s as [| c s IH]; simpl; [reflexivity |].
  intros H. apply andb_prop in H as [Hc Hs].
  rewrite (IH Hs), andb_true_r.
  destruct (Ascii.eqb_spec c d) as [-> | _]; [congruence | reflexivity].
Qed.

Lemma split_on_whole (sep : ascii) (s : string) :
  no_char sep s = true -> split_on sep s = [s].
Proof.
  unfold no_char.
  induction s as [| c s IH]; simpl; [reflexivity |].
  intros H. apply andb_prop in H as [Hc Hs].
  apply negb_true_iff in Hc. rewrite Hc, (IH Hs). reflexivity.
Qed.

Lemma split_on_first (sep : ascii) (a rest : string) :
  no_char sep a = true ->
  split_on sep (a ++ String sep rest) = a :: split_on sep rest.
Proof.
  unfold no_char.
  induction a as [| c a IH]; simpl.
  - intros _. now rewrite Ascii.eqb_refl.
  - intros H. apply andb_prop in H as [Hc Ha].
    apply negb_true_iff in Hc. rewrite Hc, (IH Ha). reflexivity.
Qed.

(** Splitting undoes joining when no piece holds the separator. *)
Lemma split_on_join (sep : ascii) (ts : list string) :
  ts <> [] ->
  Forall (fun t => no_char sep t = true) ts ->
  split_on sep (Py.join (String sep EmptyString) ts) = ts.
Proof.
  induction ts as [| t ts IH]; [congruence |].
  intros _ Hall. inversion Hall as [| ? ? Ht Hts]; subst.
  destruct ts as [| t' ts].
  - simpl. now apply split_on_whole.
  - change (Py.join (String sep EmptyString) (t :: t' :: ts))
      with (t ++ String sep (Py.join (String sep EmptyString) (t' :: ts)))%string.
    rewrite split_on_first by assumption.
    rewrite IH by (assumption || congruence). reflexivity.
Qed.

End StringFacts.

(** ** The petal path builder: results *)

Section PathResults.

Variable str_float : R -> string.

(** [repr] of a float is made of the characters of a number. *)
Hypothesis str_float_text : forall x, float_text (str_float x) = true.

Local Open Scope R_scope.

Lemma make_petal_path_join (cx cy petal_width angle : R) :
  make_petal_path str_float cx cy petal_width angle =
  Py.join " "
    [ "M"; str_float cx; str_float cy; "C";
      str_float (fst (polar cx cy petal_width (angle - 20)));
      str_float (snd (polar cx cy petal_width (angle - 20)));
      str_float (fst (polar cx cy petal_width (angle + 20)));
      str_float (snd (polar cx cy petal_width (angle + 20)));
      str_float cx; str_float cy ]%string.
Proof.
  unfold make_petal_path. cbv zeta.
  cbn [Py.fstring fold_right Py.join String.append].
  now rewrite append_empty_r.
Qed.

Lemma make_petal_path_tokens (cx cy petal_width angle : R) :
  tokens (make_petal_path str_float cx cy petal_width angle) =
    [ "M"; str_float cx; str_float cy; "C";
      str_float (fst (polar cx cy petal_width (angle - 20)));
      str_float (snd (polar cx cy petal_width (angle - 20)));
      str_float (fst (polar cx cy petal_width (angle + 20)));
      str_float (snd (polar cx cy petal_width (angle + 20)));
      str_float cx; str_float cy ]%string.
Proof using str_float_text.
  rewrite make_petal_path_join. unfold tokens.
  apply split_on_join; [congruence |].
  assert (Hnum : forall x, no_char " " (str_float x) = true).
  { intros x. apply float_text_no_char; [reflexivity | apply str_float_text]. }
  repeat constructor; auto.
Qed.

Lemma make_petal_path_commands (cx cy petal_width angle : R) :
  commands (make_petal_path str_float cx cy petal_width angle) = [ "M"; "C" ]%string.
Proof using str_float_text.
  unfold commands. rewrite make_petal_path_tokens.
  cbn [List.filter]. rewrite !str_float_text. reflexivity.
Qed.

(** C5: for every centre, radius and central angle the path string is
    one move to the centre followed by exactly one cubic curve; the curve's
    first control point is [polar cx cy radius (angle - 20)], its second
    [polar cx cy radius (angle + 20)], and it ends at the centre.  No input
    is refused: a radius of zero gives the curve whose points all sit on the
    centre. *)
Theorem make_petal_path_single_cubic (cx cy radius angle : R) :
  let c1 := polar cx cy radius (angle - 20) in
  let c2 := polar cx cy radius (angle + 20) in
  tokens (make_petal_path str_float cx cy radius angle) =
    [ "M"; str_float cx; str_float cy;
      "C"; str_float (fst c1); str_float (snd c1);
           str_float (fst c2); str_float (snd c2);
           str_float cx; str_float cy ]%string /\
  commands (make_petal_path str_float cx cy radius angle) = [ "M"; "C" ]%string /\
  tokens (make_petal_path str_float cx cy 0 angle) =
    [ "M"; str_float cx; str_float cy;
      "C"; str_float cx; str_float cy; str_float cx; str_float cy;
           str_float cx; str_float cy ]%string.
Proof using str_float_text.
  cbv zeta. split; [apply make_petal_path_tokens |].
  split; [apply make_petal_path_commands |].
  rewrite make_petal_path_tokens, !polar_zero_radius. reflexivity.
Qed.

End PathResults.

(** ** Points on a circle that are far apart *)

Section Separation.

Local Open Scope R_scope.

Lemma inv_sqrt2_bound : 1 / sqrt 2 <= 3 / 4.
Proof.
  pose proof (sqrt_pos 2) as Hpos.
  pose proof (sqrt_sqrt 2 ltac:(lra)) as Hsq.
  assert (Hs : 4 / 3 <= sqrt 2) by nra.
  unfold Rdiv. rewrite Rmult_1_l.
  replace (3 * / 4) with (/ (4 / 3)) by field.
  apply Rinv_le_contravar; lra.
Qed.

(** Away from the multiples of a full turn by an eighth of a turn or
    more, the cosine is at most [cos (PI / 4)]. *)
Lemma cos_far (d : R) : PI / 4 <= d <= 7 * PI / 4 -> cos d <= 1 / sqrt 2.
Proof.
  intros [Hlo Hhi]. pose proof PI_RGT_0 as Hpi.
  rewrite <- cos_PI4.
  destruct (Rle_dec d PI) as [Hd | Hd].
  - apply cos_decr_1; lra.
  - replace (cos d) with (cos (2 * PI - d)).
    + apply cos_decr_1; lra.
    + rewrite cos_minus, cos_2PI, sin_2PI. ring.
Qed.

Lemma chord_sqr (a b : R) :
  (cos a - cos b)² + (sin a - sin b)² = 2 - 2 * cos (a - b).
Proof.
  rewrite cos_minus.
  pose proof (sin2_cos2 a) as Ha. pose proof (sin2_cos2 b) as Hb.
  unfold Rsqr in *. nra.
Qed.

Lemma sqr_lt_1 (x : R) : Rabs x < 1 -> x² < 1.
Proof.
  intros H. replace 1 with (1²) by (unfold Rsqr; ring).
  apply Rsqr_lt_abs_1. now rewrite (Rabs_pos_eq 1) by lra.
Qed.

(** Two points of a circle of radius at least 2 whose angles differ by
    45 to 315 degrees differ by at least 1 in one coordinate. *)
Lemma polar_apart (cx cy r a b : R) :
  2 <= r -> 45 <= a - b <= 315 ->
  1 <= Rabs (fst (polar cx cy r a) - fst (polar cx cy r b)) \/
  1 <= Rabs (snd (polar cx cy r a) - snd (polar cx cy r b)).
Proof.
  intros Hr Hab. pose proof PI_RGT_0 as Hpi.
  destruct (Rle_lt_dec 1 (Rabs (fst (polar cx cy r a) - fst (polar cx cy r b))))
    as [Hx | Hx]; [now left |].
  destruct (Rle_lt_dec 1 (Rabs (snd (polar cx cy r a) - snd (polar cx cy r b))))
    as [Hy | Hy]; [now right |].
  exfalso.
  apply sqr_lt_1 in Hx. apply sqr_lt_1 in Hy.
  unfold polar in Hx, Hy. cbn [fst snd] in Hx, Hy.
  set (ta := (a - 90) * PI / 180) in *.
  set (tb := (b - 90) * PI / 180) in *.
  assert (Hd : PI / 4 <= ta - tb <= 7 * PI / 4).
  { replace (ta - tb) with ((a - b) * (PI / 180)) by (subst ta tb; field).
    split; nra. }
  pose proof (cos_far _ Hd) as Hcos.
  pose proof inv_sqrt2_bound as Hs.
  pose proof (chord_sqr ta tb) as Hch.
  replace (cx + r * cos ta - (cx + r * cos tb)) with (r * (cos ta - cos tb)) in Hx by ring.
  replace (cy + r * sin ta - (cy + r * sin tb)) with (r * (sin ta - sin tb)) in Hy by ring.
  unfold Rsqr in *.
  assert (Hsum : r * r * (2 - 2 * cos (ta - tb)) < 2) by nra.
  assert (Hhalf : 1 / 2 <= 2 - 2 * cos (ta - tb)) by lra.
  nra.
Qed.

Lemma NoDup_map_seq {A : Type} (g : nat -> A) (start n : nat) :
  (forall i j, (start <= i < j)%nat -> (j < start + n)%nat -> g i <> g j) ->
  List.NoDup (map g (seq start n)).
Proof.
  revert start. induction n as [| n IH]; intros start Hg; simpl.
  - constructor.
  - constructor.
    + intros Hin. apply in_map_iff in Hin as (j & Hj & Hin).
      apply in_seq in Hin.
      apply (Hg start j); [lia | lia | now symmetry].
    + apply IH. intros i j Hij Hj. apply Hg; lia.
Qed.

Lemma angle_degrees (j : nat) : Main.angle j = 45 * INR j.
Proof.
  unfold Main.angle, Main.segment, Main.starting_angle, Main.petals.
  replace (INR 8) with 8 by (simpl; lra). lra.
Qed.

Lemma centre_value : Main.cx = 90 /\ Main.cy = 90.
Proof. unfold Main.cx, Main.cy, SIZE. split; lra. Qed.

End Separation.

(** ** The petals of the driver *)

Section DriverPaths.

Variable str_float : R -> string.

Hypothesis str_float_text : forall x, float_text (str_float x) = true.

(** [repr] tells apart any two floats; of the reals they stand for, it is
    enough here that numbers one unit or more apart print differently. *)
Hypothesis str_float_sep :
  forall x y, (1 <= Rabs (x - y))%R -> str_float x <> str_float y.

Local Open Scope R_scope.

Lemma paths_unfold :
  Main.paths str_float =
  map (fun j => make_petal_path str_float 90 90 80 (45 * INR j)) (seq 0 8).
Proof.
  unfold Main.paths, Main.petals. apply map_ext. intros j.
  destruct centre_value as [-> ->]. now rewrite angle_degrees.
Qed.

Lemma petal_paths_differ (i j : nat) :
  (i < j)%nat -> (j < 8)%nat ->
  make_petal_path str_float 90 90 80 (45 * INR i) <>
  make_petal_path str_float 90 90 80 (45 * INR j).
Proof using str_float_text str_float_sep.
  intros Hij Hj Heq.
  apply (f_equal tokens) in Heq.
  rewrite !(make_petal_path_tokens str_float str_float_text) in Heq.
  injection Heq as Hx Hy _ _.
  assert (Hgap : 45 <= (45 * INR j - 20) - (45 * INR i - 20) <= 315).
  { assert (H1 : INR (i + 1) <= INR j) by (apply le_INR; lia).
    assert (H7 : INR j <= INR 7) by (apply le_INR; lia).
    rewrite plus_INR in H1.
    replace (INR 1) with 1 in H1 by (simpl; lra).
    replace (INR 7) with 7 in H7 by (simpl; lra).
    pose proof (pos_INR i). split; lra. }
  destruct (polar_apart 90 90 80 _ _ ltac:(lra) Hgap) as [Hfar | Hfar].
  - apply (str_float_sep _ _ Hfar). now symmetry.
  - apply (str_float_sep _ _ Hfar). now symmetry.
Qed.

(** Each path of the driver carries, as its four middle numbers, the
    coordinates of its two entries of [Main.control_points]. *)
Lemma paths_carry_control_points :
  map tokens (Main.paths str_float) =
  map (fun j =>
         let c1 := polar Main.cx Main.cy Main.petal_width (Main.angle j - 20) in
         let c2 := polar Main.cx Main.cy Main.petal_width (Main.angle j + 20) in
         [ "M"; str_float Main.cx; str_float Main.cy;
           "C"; str_float (fst c1); str_float (snd c1);
                str_float (fst c2); str_float (snd c2);
                str_float Main.cx; str_float Main.cy ]%string)
      (seq 0 Main.petals).
Proof using str_float_text.
  unfold Main.paths. rewrite map_map. apply map_ext. intros j.
  apply (make_petal_path_tokens str_float str_float_text).
Qed.

(** C6: the driver builds its paths at the 8 angles [45 * j],
    [j = 0..7], around the centre (90, 90) at radius 80; the 8 strings are
    pairwise distinct, and each is one move to the centre followed by exactly
    one cubic curve that ends at the centre. *)
Theorem driver_paths_distinct_cubics :
  Main.paths str_float =
    map (fun j => make_petal_path str_float 90 90 80 (45 * INR j)) (seq 0 8) /\
  length (Main.paths str_float) = 8%nat /\
  List.NoDup (Main.paths str_float) /\
  Forall (fun p =>
            commands p = [ "M"; "C" ]%string /\
            exists x1 y1 x2 y2,
              tokens p = [ "M"; str_float 90; str_float 90;
                           "C"; x1; y1; x2; y2; str_float 90; str_float 90 ]%string)
         (Main.paths str_float).
Proof using str_float_text str_float_sep.
  split; [apply paths_unfold |].
  rewrite paths_unfold.
  split; [now rewrite length_map, length_seq |].
  split.
  - apply NoDup_map_seq. intros i j Hij Hj.
    apply petal_paths_differ; lia.
  - apply List.Forall_forall. intros p Hin.
    apply in_map_iff in Hin as (j & <- & _).
    split; [now apply make_petal_path_commands |].
    rewrite (make_petal_path_tokens str_float str_float_text).
    eauto 6.
Qed.

End DriverPaths.

(** ** Counting tags in a concatenation *)

Section TagCounting.

Lemma append_assoc_r (a b c : string) : ((a ++ b) ++ c = a ++ (b ++ c))%string.
Proof. induction a as [| x a IH]; simpl; [reflexivity | now rewrite IH]. Qed.

Lemma prefix_nil (s : string) : String.prefix EmptyString s = true.
Proof. now destruct s. Qed.

Lemma prefix_settled (p s rest : string) :
  settled p s = true -> String.prefix p (s ++ rest) = String.prefix p s.
Proof.
  revert s. induction p as [| a p IH]; intros s Hs; [now rewrite !prefix_nil |].
  destruct s as [| b s]; [discriminate |].
  cbn [settled] in Hs. cbn [String.append String.prefix].
  destruct (ascii_dec a b) as [-> | Hne]; [| reflexivity].
  rewrite Ascii.eqb_refl in Hs. now apply IH.
Qed.

Lemma settled_app (p a b : string) :
  settled p a = true -> settled p (a ++ b) = true.
Proof.
  revert a. induction p as [| x p IH]; intros a Ha; [reflexivity |].
  destruct a as [| y a]; [discriminate |].
  cbn [settled] in Ha. cbn [String.append settled].
  destruct (Ascii.eqb x y); [now apply IH | reflexivity].
Qed.

Lemma prefix_head_ne (c d : ascii) (p s : string) :
  Ascii.eqb d c = false -> String.prefix (String c p) (String d s) = false.
Proof.
  intros Hne. simpl. destruct (ascii_dec c d) as [-> | _]; [| reflexivity].
  now rewrite Ascii.eqb_refl in Hne.
Qed.

Lemma count_sub_app (p s rest : string) :
  self_contained p s = true ->
  count_sub (String "<" p) (s ++ rest) =
  (count_sub (String "<" p) s + count_sub (String "<" p) rest)%nat.
Proof.
  induction s as [| c s IH]; [reflexivity |].
  cbn [self_contained]. intros H. apply andb_prop in H as [Hc Hs].
  cbn [String.append count_sub]. rewrite (IH Hs), Nat.add_assoc. f_equal.
  destruct (Ascii.eqb c "<") eqn:Hlt.
  - apply Ascii.eqb_eq in Hlt. subst c. cbn [negb orb] in Hc.
    change (String.prefix (String "<" p) (String "<" (s ++ rest)))
      with (String.prefix p (s ++ rest)).
    change (String.prefix (String "<" p) (String "<" s)) with (String.prefix p s).
    now rewrite prefix_settled.
  - now rewrite !prefix_head_ne.
Qed.

Lemma self_contained_app (p a b : string) :
  self_contained p a = true -> self_contained p b = true ->
  self_contained p (a ++ b) = true.
Proof.
  intros Ha Hb. induction a as [| c a IH]; [exact Hb |].
  cbn [self_contained] in Ha. apply andb_prop in Ha as [Hc Ha].
  cbn [String.append self_contained]. rewrite (IH Ha), andb_true_r.
  apply orb_true_iff in Hc as [Hc | Hc]; [now rewrite Hc |].
  apply orb_true_iff. right. now apply settled_app.
Qed.

Lemma self_contained_fstring (p : string) (pieces : list string) :
  Forall (fun s => self_contained p s = true) pieces ->
  self_contained p (Py.fstring pieces) = true.
Proof.
  induction 1 as [| s pieces Hs _ IH]; [reflexivity |].
  cbn [Py.fstring fold_right]. now apply self_contained_app.
Qed.

Lemma count_sub_fstring (p : string) (pieces : list string) :
  Forall (fun s => self_contained p s = true) pieces ->
  count_sub (String "<" p) (Py.fstring pieces) =
  list_sum (map (count_sub (String "<" p)) pieces).
Proof.
  induction 1 as [| s pieces Hs _ IH]; [reflexivity |].
  cbn [Py.fstring fold_right map list_sum].
  rewrite count_sub_app by assumption. f_equal. exact IH.
Qed.

(** A string without [<] holds no tag and settles none. *)
Lemma no_lt_self_contained (p s : string) :
  no_char "<" s = true -> self_contained p s = true.
Proof.
  unfold no_char. induction s as [| c s IH]; [reflexivity |].
  cbn [list_ascii_of_string forallb self_contained].
  intros H. apply andb_prop in H as [Hc Hs].
  now rewrite Hc, (IH Hs).
Qed.

Lemma no_lt_count (p s : string) :
  no_char "<" s = true -> count_sub (String "<" p) s = 0%nat.
Proof.
  unfold no_char. induction s as [| c s IH]; [reflexivity |].
  cbn [list_ascii_of_string forallb count_sub].
  intros H. apply andb_prop in H as [Hc Hs].
  apply negb_true_iff in Hc.
  now rewrite prefix_head_ne, (IH Hs).
Qed.

Lemma no_char_app (d : ascii) (a b : string) :
  no_char d (a ++ b) = no_char d a && no_char d b.
Proof. unfold no_char. now rewrite list_ascii_app, forallb_app. Qed.

Lemma no_char_fstring (d : ascii) (pieces : list string) :
  Forall (fun s => no_char d s = true) pieces ->
  no_char d (Py.fstring pieces) = true.
Proof.
  induction 1 as [| s pieces Hs _ IH]; [reflexivity |].
  change (no_char d (s ++ Py.fstring pieces) = true).
  now rewrite no_char_app, Hs, IH.
Qed.

Lemma join_empty (l : list string) : Py.join EmptyString l = Py.fstring l.
Proof.
  induction l as [| s l IH]; [reflexivity |].
  destruct l as [| s' l].
  - cbn. now rewrite append_empty_r.
  - change (Py.join EmptyString (s :: s' :: l))
      with (s ++ EmptyString ++ Py.join EmptyString (s' :: l))%string.
    rewrite IH. reflexivity.
Qed.

End TagCounting.

(** ** The markup document: results *)

Ltac flatten_strings :=
  cbn [Py.fstring fold_right attr xml_declaration svg_open rect_element group_open
       path_el circle_element Main.path_element];
  unfold Py.dq, Py.nl;
  repeat (rewrite ?append_assoc_r, ?append_empty_r; cbn [String.append]).

Section MarkupResults.

Variable str_float : R -> string.

Hypothesis str_float_text : forall x, float_text (str_float x) = true.

Local Open Scope R_scope.

Lemma str_float_no_lt (x : R) : no_char "<" (str_float x) = true.
Proof using str_float_text.
  apply float_text_no_char; [reflexivity | apply str_float_text].
Qed.

Lemma make_petal_path_no_lt (cx cy w a : R) :
  no_char "<" (make_petal_path str_float cx cy w a) = true.
Proof using str_float_text.
  unfold make_petal_path. cbv zeta. apply no_char_fstring.
  repeat (apply List.Forall_cons; [first [apply str_float_no_lt | reflexivity] |]).
  apply List.Forall_nil.
Qed.

Lemma paths_no_lt :
  Forall (fun p => no_char "<" p = true) (Main.paths str_float).
Proof using str_float_text.
  unfold Main.paths. apply List.Forall_forall. intros p Hin.
  apply in_map_iff in Hin as (j & <- & _). apply make_petal_path_no_lt.
Qed.

Lemma path_element_eq (p : string) : Main.path_element p = path_el p.
Proof. flatten_strings. reflexivity. Qed.

Lemma path_element_self_contained (t p : string) :
  self_contained t "<path d=" = true -> no_char "<" p = true ->
  self_contained t (Main.path_element p) = true.
Proof.
  intros Ht Hp. unfold Main.path_element. apply self_contained_fstring.
  apply List.Forall_cons; [exact Ht |].
  repeat (apply List.Forall_cons;
          [first [now apply no_lt_self_contained | reflexivity] |]).
  apply List.Forall_nil.
Qed.

Lemma path_element_count (t p : string) :
  self_contained t "<path d=" = true -> no_char "<" p = true ->
  count_sub (String "<" t) (Main.path_element p) = count_sub (String "<" t) "<path d=".
Proof.
  intros Ht Hp. unfold Main.path_element.
  rewrite count_sub_fstring.
  - cbn [map list_sum fold_right]. rewrite (no_lt_count t p Hp).
    rewrite (no_lt_count t Py.dq), (no_lt_count t "/>") by reflexivity. lia.
  - apply List.Forall_cons; [exact Ht |].
    repeat (apply List.Forall_cons;
            [first [now apply no_lt_self_contained | reflexivity] |]).
    apply List.Forall_nil.
Qed.

Lemma path_block_self_contained (t : string) (ps : list string) :
  self_contained t "<path d=" = true ->
  Forall (fun p => no_char "<" p = true) ps ->
  self_contained t (Py.join EmptyString (map Main.path_element ps)) = true.
Proof.
  intros Ht Hps. rewrite join_empty. apply self_contained_fstring.
  induction Hps as [| p ps Hp _ IH]; [apply List.Forall_nil |].
  apply List.Forall_cons; [now apply path_element_self_contained | exact IH].
Qed.

Lemma path_block_count (t : string) (ps : list string) :
  self_contained t "<path d=" = true ->
  Forall (fun p => no_char "<" p = true) ps ->
  count_sub (String "<" t) (Py.join EmptyString (map Main.path_element ps)) =
  (length ps * count_sub (String "<" t) "<path d=")%nat.
Proof.
  intros Ht Hps. rewrite join_empty.
  induction Hps as [| p ps Hp Hps IH]; [reflexivity |].
  change (Py.fstring (map Main.path_element (p :: ps)))
    with (Main.path_element p ++ Py.fstring (map Main.path_element ps))%string.
  rewrite count_sub_app by now apply path_element_self_contained.
  rewrite IH, path_element_count by assumption.
  cbn [length]. lia.
Qed.

End MarkupResults.

Section MarkupDocument.

Variable str_float : R -> string.

Hypothesis str_float_text : forall x, float_text (str_float x) = true.

Local Open Scope R_scope.

Lemma str_int_SIZE : Py.str_int SIZE = "180"%string.
Proof. reflexivity. Qed.

Lemma center_color_eq : Main.center_color = hsl_to_hex 10 65 45.
Proof. vm_compute. reflexivity. Qed.

Lemma center_radius_value : Main.center_radius = 0.14 * 80.
Proof. unfold Main.center_radius, Main.petal_width. ring. Qed.

(** The document, element by element. *)
Lemma svg_elements :
  Main.svg str_float =
  Py.fstring
    [ xml_declaration; Py.nl;
      svg_open "180"; Py.nl;
      "  "; rect_element "#ffdab9"; Py.nl;
      "  "; group_open (hsl_to_hex 30 70 50); Py.nl;
      "    "; Py.fstring (map path_el (Main.paths str_float)); Py.nl;
      "  </g>"; Py.nl;
      "  "; circle_element (str_float 90) (str_float 90) (str_float (0.14 * 80))
                           (hsl_to_hex 10 65 45); Py.nl;
      "</svg>"; Py.nl ]%string.
Proof.
  unfold Main.svg.
  rewrite join_empty, (map_ext _ _ path_element_eq).
  rewrite str_int_SIZE, center_color_eq, center_radius_value.
  destruct centre_value as [-> ->].
  unfold BG_COLOR, Main.petal_color, Main.hue_flower.
  generalize (Py.fstring (map path_el (Main.paths str_float))) as block.
  generalize (hsl_to_hex 30 70 50) as petal, (hsl_to_hex 10 65 45) as centre.
  generalize (str_float 90) as c, (str_float (0.14 * 80)) as r.
  intros r c centre petal block.
  flatten_strings. reflexivity.
Qed.

Lemma paths_length : length (Main.paths str_float) = 8%nat.
Proof. unfold Main.paths. now rewrite length_map, length_seq. Qed.

Ltac settle_piece :=
  lazymatch goal with
  | |- self_contained _ (str_float _) = true =>
      apply no_lt_self_contained, str_float_no_lt; exact str_float_text
  | |- self_contained _ (Py.join _ _) = true =>
      apply path_block_self_contained;
      [reflexivity | apply paths_no_lt; exact str_float_text]
  | |- _ => vm_compute; reflexivity
  end.

Ltac count_tag :=
  unfold Main.svg;
  rewrite count_sub_fstring;
  [ cbn [map list_sum fold_right];
    rewrite path_block_count
      by first [reflexivity | apply paths_no_lt; exact str_float_text];
    rewrite !(no_lt_count _ (str_float _))
      by (apply str_float_no_lt; exact str_float_text);
    rewrite paths_length; vm_compute; reflexivity
  | repeat (apply List.Forall_cons; [settle_piece |]); apply List.Forall_nil ].

Lemma svg_count_rect : count_sub "<rect" (Main.svg str_float) = 1%nat.
Proof using str_float_text. count_tag. Qed.

Lemma svg_count_group : count_sub "<g " (Main.svg str_float) = 1%nat.
Proof using str_float_text. count_tag. Qed.

Lemma svg_count_path : count_sub "<path" (Main.svg str_float) = 8%nat.
Proof using str_float_text. count_tag. Qed.

Lemma svg_count_circle : count_sub "<circle" (Main.svg str_float) = 1%nat.
Proof using str_float_text. count_tag. Qed.

Lemma svg_count_svg : count_sub "<svg" (Main.svg str_float) = 1%nat.
Proof using str_float_text. count_tag. Qed.

(** C7: the document of the driver is a 180 x 180 canvas that holds
    exactly one background rectangle covering it, filled with the background
    colour; exactly one group, filled and stroked with the petal colour
    [hsl_to_hex 30 70 50], whose content is exactly the 8 petal path
    elements; and exactly one circle at the centre (90, 90) of radius
    [0.14 * 80], filled with the centre colour [hsl_to_hex 10 65 45]. *)
Theorem svg_document_structure :
  Main.svg str_float =
    Py.fstring
      [ xml_declaration; Py.nl;
        svg_open "180"; Py.nl;
        "  "; rect_element "#ffdab9"; Py.nl;
        "  "; group_open (hsl_to_hex 30 70 50); Py.nl;
        "    "; Py.fstring (map path_el (Main.paths str_float)); Py.nl;
        "  </g>"; Py.nl;
        "  "; circle_element (str_float 90) (str_float 90) (str_float (0.14 * 80))
                             (hsl_to_hex 10 65 45); Py.nl;
        "</svg>"; Py.nl ]%string /\
  length (Main.paths str_float) = 8%nat /\
  BG_COLOR = "#ffdab9"%string /\
  count_sub "<svg" (Main.svg str_float) = 1%nat /\
  count_sub "<rect" (Main.svg str_float) = 1%nat /\
  count_sub "<g " (Main.svg str_float) = 1%nat /\
  count_sub "<path" (Main.svg str_float) = 8%nat /\
  count_sub "<circle" (Main.svg str_float) = 1%nat.
Proof using str_float_text.
  split; [apply svg_elements |].
  split; [apply paths_length |].
  split; [reflexivity |].
  split; [apply svg_count_svg |].
  split; [apply svg_count_rect |].
  split; [apply svg_count_group |].
  split; [apply svg_count_path | apply svg_count_circle].
Qed.

Lemma svg_element_counts :
  count_sub "<svg " (Main.svg str_float) = 1%nat /\
  count_sub "<rect" (Main.svg str_float) = 1%nat /\
  count_sub "<g " (Main.svg str_float) = 1%nat /\
  count_sub "<path" (Main.svg str_float) = 8%nat /\
  count_sub "<circle" (Main.svg str_float) = 1%nat.
Proof using str_float_text.
  split; [count_tag |].
  split; [apply svg_count_rect |].
  split; [apply svg_count_group |].
  split; [apply svg_count_path | apply svg_count_circle].
Qed.

(** X17: the document holds 15 tags in all: the declaration, the
    opening and the closing tag of [svg] and of the group once each, and the
    rectangle, the 8 paths and the circle; it starts with the declaration. *)
Theorem svg_tags_balanced :
  String.prefix "<?xml " (Main.svg str_float) = true /\
  count_sub "<" (Main.svg str_float) = 15%nat /\
  count_sub "<?xml" (Main.svg str_float) = 1%nat /\
  count_sub "<svg " (Main.svg str_float) = 1%nat /\
  count_sub "</svg>" (Main.svg str_float) = 1%nat /\
  count_sub "<g " (Main.svg str_float) = 1%nat /\
  count_sub "</g>" (Main.svg str_float) = 1%nat /\
  count_sub "</" (Main.svg str_float) = 2%nat.
Proof using str_float_text.
  split; [reflexivity |].
  repeat split; count_tag.
Qed.

End MarkupDocument.

(** ** The driver: results *)

Section DriverResults.

Variable str_float : R -> string.

Lemma dirname_OUTPUT_PATH : Py.dirname OUTPUT_PATH = "public".
Proof. reflexivity. Qed.

Lemma svg_path_value : svg_path = "public/apple-touch-icon.svg".
Proof. reflexivity. Qed.

(** The four ways a run can go. *)
Lemma main_makedirs_raises (E : env) (w : world) (e : exn) :
  makedirs_raises E (Py.dirname OUTPUT_PATH) = Some e ->
  main str_float E w = (w, inl e).
Proof.
  intros H. unfold main, os_makedirs, bind, guard, raise. now rewrite H.
Qed.

Lemma main_rasterized (E : env) (w : world) :
  makedirs_raises E (Py.dirname OUTPUT_PATH) = None ->
  attempt_raises str_float E = None ->
  main str_float E w =
  (World (<[ OUTPUT_PATH := rasterize E (Py.encode_utf8 (Main.svg str_float)) SIZE SIZE ]>
            (files w))
         ({[ Py.dirname OUTPUT_PATH ]} ∪ dirs w)
         (stdout w ++ [ "Wrote public/apple-touch-icon.png" ])%list,
   inr tt).
Proof.
  intros Hmk Hat. unfold attempt_raises in Hat.
  destruct (import_cairosvg_raises E) eqn:Himp; [discriminate |].
  unfold main, os_makedirs, try_except, import_cairosvg, cairosvg_svg2png,
    print, bind, guard, ret, raise.
  now rewrite Hmk, Himp, Hat.
Qed.

Lemma main_other_exception (E : env) (w : world) (e : exn) :
  makedirs_raises E (Py.dirname OUTPUT_PATH) = None ->
  attempt_raises str_float E = Some e ->
  is_ImportError e = false ->
  main str_float E w = (with_output_dir w, inl e).
Proof.
  intros Hmk Hat He. unfold attempt_raises in Hat.
  unfold main, os_makedirs, try_except, import_cairosvg, cairosvg_svg2png,
    print, bind, guard, ret, raise, with_output_dir.
  rewrite Hmk.
  destruct (import_cairosvg_raises E) eqn:Himp.
  - injection Hat as ->. now rewrite He.
  - rewrite Hat. now rewrite He.
Qed.

Lemma main_fallback (E : env) (w : world) (e : exn) :
  makedirs_raises E (Py.dirname OUTPUT_PATH) = None ->
  attempt_raises str_float E = Some e ->
  is_ImportError e = true ->
  main str_float E w =
  match open_raises E svg_path with
  | None =>
      (World (<[ svg_path := Py.encode_utf8 (Main.svg str_float) ]> (files w))
             ({[ Py.dirname OUTPUT_PATH ]} ∪ dirs w)
             (stdout w ++ [ notice; hint ])%list,
       inr tt)
  | Some e' => (with_output_dir w, inl e')
  end.
Proof.
  intros Hmk Hat He. unfold attempt_raises in Hat.
  unfold main, os_makedirs, try_except, import_cairosvg, cairosvg_svg2png,
    write_text, print, bind, guard, ret, raise, with_output_dir.
  rewrite Hmk.
  destruct (import_cairosvg_raises E) eqn:Himp.
  - injection Hat as ->. rewrite He.
    destruct (open_raises E svg_path); [reflexivity |].
    cbn [stdout files dirs]. now rewrite <- app_assoc.
  - rewrite Hat, He.
    destruct (open_raises E svg_path); [reflexivity |].
    cbn [stdout files dirs]. now rewrite <- app_assoc.
Qed.

(** C8, amended: the only failure the driver handles is an [ImportError]
    (the class or a subclass) raised in the [try] body, by the import or by
    the rasterizer call.  Then, and only then, the markup is written verbatim
    to [public/apple-touch-icon.svg] and the two lines of the notice are
    printed; that run and the rasterizing run both return normally; every
    other exception, from the [try] body, from the directory creation or from
    the fallback write, propagates and nothing is written or printed. *)
Theorem main_handles_only_import_error (E : env) (w : world) :
  let svg_file := "public/apple-touch-icon.svg" in
  let png_file := "public/apple-touch-icon.png" in
  let markup := Py.encode_utf8 (Main.svg str_float) in
  let out_dirs := {[ "public" ]} ∪ dirs w in
  let line1 :=
    "Wrote public/apple-touch-icon.svg (cairosvg not installed; run: pip install cairosvg, then re-run to get PNG)" in
  let line2 :=
    "Or convert manually: cairosvg -o public/apple-touch-icon.png -W 180 -H 180 public/apple-touch-icon.svg" in
  let raised (e : exn) :=
    import_cairosvg_raises E = Some e \/
    (import_cairosvg_raises E = None /\
     svg2png_raises E markup png_file 180 180 = Some e) in
  (makedirs_raises E "public" = None ->
   (* the fallback *)
   (forall cls,
      raised (ImportErr cls) -> open_raises E svg_file = None ->
      main str_float E w =
      (World (<[ svg_file := markup ]> (files w)) out_dirs
             (stdout w ++ [ line1; line2 ])%list,
       inr tt)) /\
   (* the rasterizer is there *)
   (import_cairosvg_raises E = None ->
    svg2png_raises E markup png_file 180 180 = None ->
    main str_float E w =
    (World (<[ png_file := rasterize E markup 180 180 ]> (files w)) out_dirs
           (stdout w ++ [ "Wrote public/apple-touch-icon.png" ])%list,
     inr tt)) /\
   (* any other exception of the [try] body *)
   (forall cls,
      raised (OtherErr cls) ->
      main str_float E w = (World (files w) out_dirs (stdout w), inl (OtherErr cls))) /\
   (* an exception of the fallback write *)
   (forall cls e',
      raised (ImportErr cls) -> open_raises E svg_file = Some e' ->
      main str_float E w = (World (files w) out_dirs (stdout w), inl e')) /\
   (* the notice is printed by a run that returns only on the fallback *)
   (snd (main str_float E w) = inr tt /\
    stdout (fst (main str_float E w)) = (stdout w ++ [ line1; line2 ])%list <->
    (exists cls, raised (ImportErr cls)) /\ open_raises E svg_file = None)) /\
  (* an exception of the directory creation *)
  (forall e, makedirs_raises E "public" = Some e -> main str_float E w = (w, inl e)).
Proof.
  cbv zeta.
  assert (Hraised : forall e,
            (import_cairosvg_raises E = Some e \/
             import_cairosvg_raises E = None /\
             svg2png_raises E (Py.encode_utf8 (Main.svg str_float))
               "public/apple-touch-icon.png" 180 180 = Some e) <->
            attempt_raises str_float E = Some e).
  { intros e. unfold attempt_raises.
    change OUTPUT_PATH with "public/apple-touch-icon.png". change SIZE with 180%Z.
    destruct (import_cairosvg_raises E) as [e0 |]; split.
    - intros [H | [H _]]; [exact H | discriminate].
    - intros H. now left.
    - intros [H | [_ H]]; [discriminate | exact H].
    - intros H. right. easy. }
  split; [| intros e; apply main_makedirs_raises].
  intros Hmk.
  split.
  { intros cls Hr Hop. apply Hraised in Hr.
    change (open_raises E svg_path = None) in Hop.
    rewrite (main_fallback E w _ Hmk Hr eq_refl), Hop. reflexivity. }
  split.
  { intros Himp Hsvg. apply (main_rasterized E w Hmk).
    unfold attempt_raises. rewrite Himp. exact Hsvg. }
  split.
  { intros cls Hr. apply Hraised in Hr.
    apply (main_other_exception E w _ Hmk Hr eq_refl). }
  split.
  { intros cls e' Hr Hop. apply Hraised in Hr.
    change (open_raises E svg_path = Some e') in Hop.
    rewrite (main_fallback E w _ Hmk Hr eq_refl), Hop. reflexivity. }
  change (open_raises E "public/apple-touch-icon.svg") with (open_raises E svg_path).
  destruct (attempt_raises str_float E) as [e |] eqn:Hat.
  - destruct e as [cls | cls].
    + rewrite (main_fallback E w _ Hmk Hat eq_refl).
      destruct (open_raises E svg_path) as [e' |] eqn:Hop; cbn [fst snd stdout].
      * split; [intros [Hr _]; discriminate | intros [_ Hn]; discriminate].
      * split; [| easy]. intros _. split; [| reflexivity].
        exists cls. now apply Hraised.
    + rewrite (main_other_exception E w _ Hmk Hat eq_refl). cbn [fst snd].
      split; [intros [Hr _]; discriminate |].
      intros [(c0 & Hr) _]. apply Hraised in Hr. congruence.
  - rewrite (main_rasterized E w Hmk Hat). cbn [fst snd stdout].
    split.
    + intros [_ Hout]. apply app_inv_head in Hout. discriminate.
    + intros [(c0 & Hr) _]. apply Hraised in Hr. congruence.
Qed.

End DriverResults.

(** ** A formatter to run the statements on *)

Section FloorFormatter.

Lemma digits_text (u : Decimal.uint) :
  float_text (DecimalString.NilEmpty.string_of_uint u) = true.
Proof.
  unfold float_text.
  induction u as [| u IH | u IH | u IH | u IH | u IH | u IH | u IH | u IH | u IH | u IH];
    [reflexivity | ..]; cbn [DecimalString.NilEmpty.string_of_uint list_ascii_of_string forallb];
    rewrite IH; reflexivity.
Qed.

Lemma nilzero_text (u : Decimal.uint) :
  float_text (DecimalString.NilZero.string_of_uint u) = true.
Proof. destruct u; first [reflexivity | exact (digits_text _)]. Qed.

Lemma str_int_text (z : Z) : float_text (Py.str_int z) = true.
Proof.
  unfold Py.str_int, DecimalString.NilZero.string_of_int.
  destruct (Z.to_int z) as [u | u]; [apply nilzero_text |].
  pose proof (nilzero_text u) as Hu. unfold float_text in *.
  cbn [list_ascii_of_string forallb]. now rewrite Hu.
Qed.

Lemma to_int_proper (z : Z) :
  Z.to_int z <> Decimal.Pos Decimal.Nil /\ Z.to_int z <> Decimal.Neg Decimal.Nil.
Proof.
  destruct z as [| p | p]; cbn [Z.to_int]; split; try discriminate;
    intros H; injection H as H; now apply DecimalPos.Unsigned.to_uint_nonnil in H.
Qed.

Lemma str_int_inj (a b : Z) : Py.str_int a = Py.str_int b -> a = b.
Proof.
  unfold Py.str_int. intros H.
  apply (f_equal DecimalString.NilZero.int_of_string) in H.
  destruct (to_int_proper a) as [Ha1 Ha2], (to_int_proper b) as [Hb1 Hb2].
  rewrite !DecimalString.NilZero.isi in H by assumption.
  injection H as H. apply (f_equal Z.of_int) in H.
  now rewrite !DecimalZ.of_to in H.
Qed.

Lemma floor_str_text (x : R) : float_text (floor_str x) = true.
Proof. apply str_int_text. Qed.

Lemma floor_str_sep (x y : R) :
  (1 <= Rabs (x - y))%R -> floor_str x <> floor_str y.
Proof.
  intros Hfar Heq. apply str_int_inj in Heq.
  destruct (base_Int_part x) as [Hx1 Hx2], (base_Int_part y) as [Hy1 Hy2].
  rewrite Heq in Hx1, Hx2.
  assert (Hnear : (Rabs (x - y) < 1)%R) by (apply Rabs_def1; lra).
  lra.
Qed.

End FloorFormatter.

(** ** The statements on the concrete formatter *)

Section Instances.

Lemma make_petal_path_single_cubic_witness :
  commands (make_petal_path floor_str 90 90 80 0) = [ "M"; "C" ].
Proof.
  exact (proj1 (proj2 (make_petal_path_single_cubic floor_str floor_str_text 90 90 80 0))).
Defined.

Lemma driver_paths_distinct_cubics_witness : List.NoDup (Main.paths floor_str).
Proof.
  exact (proj1 (proj2 (proj2
           (driver_paths_distinct_cubics floor_str floor_str_text floor_str_sep)))).
Defined.

Lemma svg_document_structure_witness :
  count_sub "<path" (Main.svg floor_str) = 8%nat /\
  count_sub "<rect" (Main.svg floor_str) = 1%nat.
Proof.
  destruct (svg_document_structure floor_str floor_str_text)
    as (_ & _ & _ & _ & Hrect & _ & Hpath & _).
  exact (conj Hpath Hrect).
Defined.

(** C8 as stated ties the fallback to the import alone; the [except]
    clause looks at the class of the exception instead.  With the import
    succeeding and the rasterizer call raising an [ImportError] the fallback
    file is written; with the import failing on an [OSError] it is not, and
    the error propagates. *)
Lemma main_fallback_not_tied_to_import :
  (import_cairosvg_raises late_import_error = None /\
   snd (main floor_str late_import_error empty_world) = inr tt /\
   files (fst (main floor_str late_import_error empty_world))
     !! "public/apple-touch-icon.svg" = Some (Py.encode_utf8 (Main.svg floor_str))) /\
  (import_cairosvg_raises broken_install = Some (OtherErr "OSError") /\
   snd (main floor_str broken_install empty_world) = inl (OtherErr "OSError") /\
   files (fst (main floor_str broken_install empty_world))
     !! "public/apple-touch-icon.svg" = None).
Proof.
  split.
  - rewrite (main_fallback floor_str late_import_error empty_world
               (ImportErr "ImportError") eq_refl eq_refl eq_refl).
    cbn [open_raises late_import_error fst snd files].
    split; [reflexivity |]. split; [reflexivity |].
    apply (lookup_insert_eq (files empty_world) svg_path).
  - rewrite (main_other_exception floor_str broken_install empty_world
               (OtherErr "OSError") eq_refl eq_refl eq_refl).
    cbn [fst snd with_output_dir files empty_world].
    split; [reflexivity |]. split; [reflexivity |]. apply lookup_empty.
Qed.

Lemma main_handles_only_import_error_witness :
  main floor_str no_rasterizer empty_world =
  (World (<[ "public/apple-touch-icon.svg" := Py.encode_utf8 (Main.svg floor_str) ]> ∅)
         ({[ "public" ]} ∪ ∅)
         [ "Wrote public/apple-touch-icon.svg (cairosvg not installed; run: pip install cairosvg, then re-run to get PNG)";
           "Or convert manually: cairosvg -o public/apple-touch-icon.png -W 180 -H 180 public/apple-touch-icon.svg" ],
   inr tt).
Proof.
  destruct (main_handles_only_import_error floor_str no_rasterizer empty_world)
    as [Hok _].
  destruct (Hok eq_refl) as [Hfallback _].
  exact (Hfallback "ModuleNotFoundError" (or_introl eq_refl) eq_refl).
Defined.

End Instances.

(** ** Distinct points on a circle *)

Section GeometryMore.

Local Open Scope R_scope.

Lemma cos_lt_1_within_turn (d : R) : 0 < d < 2 * PI -> cos d < 1.
Proof.
  intros [Hlo Hhi].
  replace d with (2 * (d / 2)) by field.
  rewrite cos_2a_sin.
  assert (Hs : 0 < sin (d / 2)) by (apply sin_gt_0; lra).
  nra.
Qed.

(** Squared distance between two points of the same circle. *)
Lemma polar_chord_sqr (cx cy r a b : R) :
  (fst (polar cx cy r a) - fst (polar cx cy r b))² +
  (snd (polar cx cy r a) - snd (polar cx cy r b))² =
  r² * (2 - 2 * cos ((a - b) * PI / 180)).
Proof.
  unfold polar. cbn [fst snd].
  set (ta := (a - 90) * PI / 180). set (tb := (b - 90) * PI / 180).
  replace ((a - b) * PI / 180) with (ta - tb) by (subst ta tb; field).
  rewrite <- chord_sqr. unfold Rsqr. ring.
Qed.

Lemma polar_distinct (cx cy r a b : R) :
  r <> 0 -> 0 < a - b < 360 -> polar cx cy r a <> polar cx cy r b.
Proof.
  intros Hr Hab Heq. pose proof PI_RGT_0 as Hpi.
  pose proof (polar_chord_sqr cx cy r a b) as Hch.
  rewrite Heq in Hch.
  replace ((fst (polar cx cy r b) - fst (polar cx cy r b))² +
           (snd (polar cx cy r b) - snd (polar cx cy r b))²) with 0 in Hch
    by (unfold Rsqr; ring).
  assert (Hd : 0 < (a - b) * PI / 180 < 2 * PI) by (split; nra).
  pose proof (cos_lt_1_within_turn _ Hd) as Hcos.
  assert (Hr2 : 0 < r²) by (apply Rsqr_pos_lt; exact Hr).
  nra.
Qed.

End GeometryMore.

(** ** More on the petal path builder *)

Section PathMore.

Variable str_float : R -> string.

Hypothesis str_float_text : forall x, float_text (str_float x) = true.

Local Open Scope R_scope.

Lemma forallb_chars_app (P : ascii -> bool) (a b : string) :
  forallb P (list_ascii_of_string (a ++ b)) =
  forallb P (list_ascii_of_string a) && forallb P (list_ascii_of_string b).
Proof. now rewrite list_ascii_app, forallb_app. Qed.

Lemma forallb_chars_fstring (P : ascii -> bool) (pieces : list string) :
  Forall (fun s => forallb P (list_ascii_of_string s) = true) pieces ->
  forallb P (list_ascii_of_string (Py.fstring pieces)) = true.
Proof.
  induction 1 as [| s pieces Hs _ IH]; [reflexivity |].
  change (Py.fstring (s :: pieces)) with (s ++ Py.fstring pieces)%string.
  now rewrite forallb_chars_app, Hs, IH.
Qed.

Lemma forallb_chars_weaken (P Q : ascii -> bool) (s : string) :
  (forall c, P c = true -> Q c = true) ->
  forallb P (list_ascii_of_string s) = true ->
  forallb Q (list_ascii_of_string s) = true.
Proof.
  intros HPQ. induction s as [| c s IH]; [reflexivity |].
  cbn [list_ascii_of_string forallb]. intros H.
  apply andb_prop in H as [Hc Hs]. now rewrite (HPQ c Hc), (IH Hs).
Qed.

Lemma forallb_chars_absent (P : ascii -> bool) (d : ascii) (s : string) :
  P d = false -> forallb P (list_ascii_of_string s) = true -> no_char d s = true.
Proof.
  intros Hd H. unfold no_char.
  apply (forallb_chars_weaken P); [| exact H].
  intros c Hc. destruct (Ascii.eqb_spec c d) as [-> | _]; [congruence | reflexivity].
Qed.

Lemma make_petal_path_chars (cx cy w a : R) :
  forallb path_char (list_ascii_of_string (make_petal_path str_float cx cy w a)) = true.
Proof using str_float_text.
  assert (Hnum : forall x, forallb path_char (list_ascii_of_string (str_float x)) = true).
  { intros x. apply (forallb_chars_weaken float_char); [| apply str_float_text].
    intros c Hc. unfold path_char. now rewrite Hc. }
  unfold make_petal_path. cbv zeta. apply forallb_chars_fstring.
  repeat (apply List.Forall_cons; [first [apply Hnum | reflexivity] |]).
  apply List.Forall_nil.
Qed.

(** X7: whatever the centre, the radius and the angle, a petal path is
    made of number characters, spaces and the letters M and C only; so it
    holds none of the characters that would end or break the quoted
    attribute it is put in: no double quote, no [<], no [>], no [&]. *)
Theorem make_petal_path_attribute_safe (cx cy w a : R) :
  let p := make_petal_path str_float cx cy w a in
  forallb path_char (list_ascii_of_string p) = true /\
  no_char (ascii_of_nat 34) p = true /\
  no_char "<" p = true /\ no_char ">" p = true /\ no_char "&" p = true.
Proof using str_float_text.
  cbv zeta. pose proof (make_petal_path_chars cx cy w a) as H.
  split; [exact H |].
  repeat split; apply (forallb_chars_absent path_char); first [reflexivity | exact H].
Qed.

End PathMore.

(** ** The joined path data *)

Section PathData.

Variable str_float : R -> string.

Hypothesis str_float_text : forall x, float_text (str_float x) = true.

Lemma join_app (sep : string) (l1 l2 : list string) :
  l1 <> [] -> l2 <> [] ->
  Py.join sep (l1 ++ l2)%list = (Py.join sep l1 ++ sep ++ Py.join sep l2)%string.
Proof.
  intros H1 H2. induction l1 as [| a l1 IH]; [congruence |].
  destruct l1 as [| b l1].
  - destruct l2 as [| c l2]; [congruence | reflexivity].
  - change (Py.join sep ((a :: b :: l1) ++ l2)%list)
      with (a ++ sep ++ Py.join sep ((b :: l1) ++ l2)%list)%string.
    rewrite IH by congruence.
    change (Py.join sep (a :: b :: l1)) with (a ++ sep ++ Py.join sep (b :: l1))%string.
    now rewrite !append_assoc_r.
Qed.

Lemma concat_nonempty {A : Type} (l : list A) (ls : list (list A)) :
  l <> [] -> concat (l :: ls) <> [].
Proof. destruct l; [congruence | discriminate]. Qed.

(** Joining joined lists is joining their concatenation. *)
Lemma join_join (sep : string) (tss : list (list string)) :
  Forall (fun ts => ts <> []) tss ->
  Py.join sep (map (Py.join sep) tss) = Py.join sep (concat tss).
Proof.
  induction 1 as [| ts tss Hts Htss IH]; [reflexivity |].
  destruct tss as [| ts' tss].
  - cbn [map concat]. now rewrite app_nil_r.
  - change (Py.join sep (map (Py.join sep) (ts :: ts' :: tss)))
      with (Py.join sep ts ++ sep ++ Py.join sep (map (Py.join sep) (ts' :: tss)))%string.
    rewrite IH. cbn [concat]. symmetry. apply join_app; [exact Hts |].
    apply concat_nonempty. now inversion Htss.
Qed.

Lemma tokens_join_join (tss : list (list string)) :
  tss <> [] ->
  Forall (fun ts => ts <> [] /\ Forall (fun t => no_char " " t = true) ts) tss ->
  tokens (Py.join " " (map (Py.join " ") tss)) = concat tss.
Proof.
  intros Hne Hall. unfold tokens.
  rewrite join_join by (eapply List.Forall_impl; [| exact Hall]; now intros ts [H _]).
  apply split_on_join.
  - destruct tss as [| ts tss]; [congruence |].
    apply concat_nonempty. inversion Hall as [| ? ? [H _] _]. exact H.
  - apply List.Forall_concat. eapply List.Forall_impl; [| exact Hall]. now intros ts [_ H].
Qed.

(** The token lists of the driver's paths. *)
Lemma paths_as_joins :
  Main.paths str_float =
  map (Py.join " ") (map tokens (Main.paths str_float)).
Proof using str_float_text.
  unfold Main.paths. rewrite !map_map. apply map_ext. intros j.
  rewrite (make_petal_path_tokens str_float str_float_text).
  apply make_petal_path_join.
Qed.

Lemma paths_tokens_clean :
  Forall (fun ts => ts <> [] /\ Forall (fun t => no_char " " t = true) ts)
         (map tokens (Main.paths str_float)).
Proof using str_float_text.
  unfold Main.paths. rewrite map_map. apply List.Forall_forall. intros ts Hin.
  apply in_map_iff in Hin as (j & <- & _).
  rewrite (make_petal_path_tokens str_float str_float_text).
  split; [discriminate |].
  assert (Hnum : forall x, no_char " " (str_float x) = true).
  { intros x. apply float_text_no_char; [reflexivity | apply str_float_text]. }
  repeat (apply List.Forall_cons; [first [apply Hnum | reflexivity] |]).
  apply List.Forall_nil.
Qed.

(** X8: the joined path data [path_d] is the 8 paths one after the
    other: its tokens are the tokens of the paths in order, 80 in all, and its
    commands are 8 times a move followed by one cubic curve. *)
Theorem path_d_tokens :
  tokens (Main.path_d str_float) = concat (map tokens (Main.paths str_float)) /\
  length (tokens (Main.path_d str_float)) = 80%nat /\
  commands (Main.path_d str_float) =
    concat (repeat [ "M"; "C" ]%string 8).
Proof using str_float_text.
  assert (Htok : tokens (Main.path_d str_float) =
                 concat (map tokens (Main.paths str_float))).
  { unfold Main.path_d. rewrite paths_as_joins at 1.
    apply tokens_join_join; [| apply paths_tokens_clean].
    unfold Main.paths. discriminate. }
  split; [exact Htok |].
  unfold commands. rewrite Htok. clear Htok.
  unfold Main.paths, Main.petals. rewrite map_map.
  split.
  - cbn [seq map concat].
    rewrite !(make_petal_path_tokens str_float str_float_text). reflexivity.
  - rewrite <- concat_filter_map, map_map.
    cbn [seq map].
    repeat match goal with
    | |- context [List.filter ?f (tokens ?p)] =>
        change (List.filter f (tokens p)) with (commands p)
    end.
    rewrite !(make_petal_path_commands str_float str_float_text). reflexivity.
Qed.

End PathData.

(** ** More on the colour converter *)

Section ColourMore.

Local Open Scope Q_scope.

Lemma ltb_lt (a b : Q) : Py.ltb a b = true <-> a < b.
Proof.
  unfold Py.ltb. rewrite negb_true_iff. split.
  - intros H. apply Qnot_le_lt. intros Hle.
    apply Qle_bool_iff in Hle. congruence.
  - intros H. destruct (Qle_bool b a) eqn:Hb; [| reflexivity].
    apply Qle_bool_iff in Hb. exfalso. now apply (Qlt_not_le a b).
Qed.

Lemma ltb_ge (a b : Q) : Py.ltb a b = false <-> b <= a.
Proof.
  unfold Py.ltb. rewrite negb_false_iff. apply Qle_bool_iff.
Qed.

Lemma round_comp (q q' : Q) : q == q' -> Py.round q = Py.round q'.
Proof.
  intros H. unfold Py.round. cbv zeta.
  rewrite (Qfloor_comp _ _ H).
  assert (Hc : Qcompare (q - inject_Z (Qfloor q')) (1 # 2) =
               Qcompare (q' - inject_Z (Qfloor q')) (1 # 2)).
  { apply Qcompare_comp; [now rewrite H | reflexivity]. }
  now rewrite Hc.
Qed.

Lemma round_upper (q : Q) (hi : Z) : q <= inject_Z hi -> (Py.round q <= hi)%Z.
Proof.
  intros Hhi.
  assert (Hf : (Qfloor q <= hi)%Z).
  { rewrite <- (Qfloor_Z hi). now apply Qfloor_resp_le. }
  pose proof (Qfloor_le q) as Hfl.
  unfold Py.round. cbv zeta.
  destruct (Qcompare_spec (q - inject_Z (Qfloor q)) (1 # 2)) as [He | Hl | Hg].
  - destruct (Z.even (Qfloor q)); [lia |].
    assert (Hlt : inject_Z (Qfloor q) < inject_Z hi) by lra.
    rewrite <- Zlt_Qlt in Hlt. lia.
  - lia.
  - assert (Hlt : inject_Z (Qfloor q) < inject_Z hi) by lra.
    rewrite <- Zlt_Qlt in Hlt. lia.
Qed.

(** Rounding keeps the order. *)
Lemma round_mono (q q' : Q) : q <= q' -> (Py.round q <= Py.round q')%Z.
Proof.
  intros Hle.
  pose proof (Qfloor_resp_le _ _ Hle) as Hf.
  pose proof (Qfloor_le q) as Hlo. pose proof (Qlt_floor q) as Hhi.
  pose proof (Qfloor_le q') as Hlo'. pose proof (Qlt_floor q') as Hhi'.
  rewrite inject_Z_plus in Hhi, Hhi'. change (inject_Z 1) with 1 in Hhi, Hhi'.
  unfold Py.round. cbv zeta.
  destruct (Z.eq_dec (Qfloor q) (Qfloor q')) as [Heq | Hne].
  - rewrite <- Heq in *.
    destruct (Qcompare_spec (q - inject_Z (Qfloor q)) (1 # 2)),
             (Qcompare_spec (q' - inject_Z (Qfloor q)) (1 # 2));
      try destruct (Z.even (Qfloor q)); try lia; exfalso; lra.
  - assert (Hlt : (Qfloor q + 1 <= Qfloor q')%Z) by lia.
    destruct (Qcompare_spec (q - inject_Z (Qfloor q)) (1 # 2)),
             (Qcompare_spec (q' - inject_Z (Qfloor q')) (1 # 2));
      try destruct (Z.even (Qfloor q)); try destruct (Z.even (Qfloor q')); lia.
Qed.

(** X9: the hue is not validated and needs no validation for the format:
    for any hue, negative or 360 and beyond, a saturation and a lightness in
    [0, 100] give a string matching [#[0-9a-f]{6}]. *)
Theorem hsl_to_hex_any_hue (h s_pct l_pct : Q) :
  0 <= s_pct -> s_pct <= 100 -> 0 <= l_pct -> l_pct <= 100 ->
  matches_hex_colour (hsl_to_hex h s_pct l_pct) = true.
Proof. intros Hs0 Hs1 Hl0 Hl1. now apply hsl_to_hex_shape. Qed.

Lemma hsl_to_hex_any_hue_witness :
  matches_hex_colour (hsl_to_hex (-30) 70 50) = true /\
  matches_hex_colour (hsl_to_hex 720 70 50) = true.
Proof.
  split; apply hsl_to_hex_any_hue; vm_compute; congruence.
Defined.

(** Without chroma the three channels are the lightness. *)
Lemma hsl_to_hex_no_chroma (h s_pct l_pct : Q) :
  (1 - Qabs (2 * (l_pct / 100) - 1)) * (s_pct / 100) == 0 ->
  let v := Py.format_02x (Py.round (l_pct / 100 * 255)) in
  hsl_to_hex h s_pct l_pct = ("#" ++ v ++ v ++ v)%string.
Proof.
  intros Hc0. cbv zeta. unfold hsl_to_hex. cbv zeta.
  set (l := l_pct / 100) in *.
  set (c := (1 - Qabs (2 * l - 1)) * (s_pct / 100)) in *.
  set (x := c * (1 - Qabs (Py.mod_ (h / 60) 2 - 1))).
  set (m := l - c / 2).
  assert (Hx0 : x == 0) by (subst x; rewrite Hc0; ring).
  assert (Hm : m == l) by (subst m; rewrite Hc0; unfold Qdiv; ring).
  assert (Ec : Py.round ((c + m) * 255) = Py.round (l * 255))
    by (apply round_comp; rewrite Hc0, Hm; ring).
  assert (Ex : Py.round ((x + m) * 255) = Py.round (l * 255))
    by (apply round_comp; rewrite Hx0, Hm; ring).
  assert (Ez : Py.round ((0 + m) * 255) = Py.round (l * 255))
    by (apply round_comp; rewrite Hm; ring).
  repeat match goal with |- context [if ?b then _ else _] => destruct b end;
    now rewrite ?Ec, ?Ex, ?Ez.
Qed.


(** X11: lightness 0 is black and lightness 100 is white, for every hue
    and every saturation, in range or not. *)
Theorem hsl_to_hex_black_white (h s_pct : Q) :
  hsl_to_hex h s_pct 0 = "#000000"%string /\
  hsl_to_hex h s_pct 100 = "#ffffff"%string.
Proof.
  split.
  - rewrite hsl_to_hex_no_chroma; [reflexivity |].
    assert (Ha : Qabs (2 * (0 / 100) - 1) == 1) by reflexivity.
    rewrite Ha. ring.
  - rewrite hsl_to_hex_no_chroma; [reflexivity |].
    assert (Ha : Qabs (2 * (100 / 100) - 1) == 1) by reflexivity.
    rewrite Ha. ring.
Qed.

Lemma format_02x_negative (n : Z) :
  (n < 0)%Z -> exists t, Py.format_02x n = String "-" t.
Proof.
  intros Hn. unfold Py.format_02x.
  apply Z.ltb_lt in Hn. rewrite Hn. eexists. reflexivity.
Qed.

Lemma no_match_with_minus (s : string) :
  no_char "-" s = false -> matches_hex_colour ("#" ++ s) = false.
Proof.
  intros Hs. change ("#" ++ s)%string with (String "#" s).
  unfold matches_hex_colour.
  destruct (forallb is_lower_hex (list_ascii_of_string s)) eqn:Hhex;
    [| apply andb_false_r].
  apply (forallb_chars_absent is_lower_hex "-") in Hhex; [congruence | reflexivity].
Qed.

(** X12: the lightness is not validated: with a saturation in [0, 100]
    and a lightness of -1 or less one of the three rounded channels is
    negative, its text starts with a minus sign, and the result is not of the
    shape [#rrggbb]. *)
Theorem hsl_to_hex_negative_lightness (h s_pct l_pct : Q) :
  0 <= s_pct -> s_pct <= 100 -> l_pct <= -1 ->
  (exists r g b : Z,
     hsl_to_hex h s_pct l_pct =
       ("#" ++ Py.format_02x r ++ Py.format_02x g ++ Py.format_02x b)%string /\
     exists n t,
       (n = r \/ n = g \/ n = b) /\ (n < 0)%Z /\ Py.format_02x n = String "-" t) /\
  matches_hex_colour (hsl_to_hex h s_pct l_pct) = false.
Proof.
  intros Hs0 Hs1 Hl.
  unfold hsl_to_hex. cbv zeta.
  set (l := l_pct / 100) in *. set (s := s_pct / 100) in *.
  assert (Hl' : l <= - (1 # 100)).
  { subst l. assert (Hd : l_pct / 100 == l_pct * (1 # 100)) by (unfold Qdiv; reflexivity).
    rewrite Hd. lra. }
  assert (Hs' : 0 <= s /\ s <= 1).
  { subst s. assert (Hd : s_pct / 100 == s_pct * (1 # 100)) by (unfold Qdiv; reflexivity).
    rewrite Hd. split; lra. }
  assert (Ha : Qabs (2 * l - 1) == 1 - 2 * l).
  { rewrite Qabs_neg by lra. ring. }
  set (c := (1 - Qabs (2 * l - 1)) * s) in *.
  assert (Hc : c == 2 * l * s) by (subst c; rewrite Ha; ring).
  set (x := c * (1 - Qabs (Py.mod_ (h / 60) 2 - 1))).
  set (m := l - c / 2).
  assert (Hcm : (c + m) * 255 <= inject_Z (-2)).
  { assert (Hm : m == l - c * (1 # 2)) by (subst m; unfold Qdiv; reflexivity).
    rewrite Hm, Hc. change (inject_Z (-2)) with (-2). nra. }
  apply round_upper in Hcm.
  assert (Hneg : (Py.round ((c + m) * 255) < 0)%Z) by lia.
  destruct (format_02x_negative _ Hneg) as [t Ht].
  assert (Hminus : no_char "-" (String "-" t) = false) by reflexivity.
  repeat match goal with |- context [if ?b then _ else _] => destruct b end;
    (split;
     [ do 3 eexists; split; [reflexivity |];
       exists (Py.round ((c + m) * 255)), t;
       split; [auto | split; [exact Hneg | exact Ht]]
     | rewrite Ht; apply no_match_with_minus;
       rewrite !no_char_app, Hminus, ?andb_false_r; reflexivity ]).
Qed.

Lemma hsl_to_hex_negative_lightness_witness :
  matches_hex_colour (hsl_to_hex 30 70 (-5)) = false.
Proof.
  apply (hsl_to_hex_negative_lightness 30 70 (-5)); vm_compute; congruence.
Defined.

(** X13: the sector of the hue fixes the order of the channels.  For a
    saturation and a lightness in [0, 100]: red is the largest and blue the
    smallest below 60, green the largest from 60 to 180, blue the largest from
    180 to 300, and red again from 300 on. *)
Theorem hsl_to_hex_channel_order (h s_pct l_pct : Q) :
  0 <= s_pct -> s_pct <= 100 -> 0 <= l_pct -> l_pct <= 100 ->
  exists r g b : Z,
    hsl_to_hex h s_pct l_pct =
      ("#" ++ Py.format_02x r ++ Py.format_02x g ++ Py.format_02x b)%string /\
    (h < 60 -> (b <= g <= r)%Z) /\
    (60 <= h -> h < 120 -> (b <= r <= g)%Z) /\
    (120 <= h -> h < 180 -> (r <= b <= g)%Z) /\
    (180 <= h -> h < 240 -> (r <= g <= b)%Z) /\
    (240 <= h -> h < 300 -> (g <= r <= b)%Z) /\
    (300 <= h -> (g <= b <= r)%Z).
Proof.
  intros Hs0 Hs1 Hl0 Hl1.
  assert (Hs : 0 <= s_pct / 100 /\ s_pct / 100 <= 1).
  { assert (Hd : s_pct / 100 == s_pct * (1 # 100)) by (unfold Qdiv; reflexivity).
    rewrite Hd. split; lra. }
  assert (Hl : 0 <= l_pct / 100 /\ l_pct / 100 <= 1).
  { assert (Hd : l_pct / 100 == l_pct * (1 # 100)) by (unfold Qdiv; reflexivity).
    rewrite Hd. split; lra. }
  destruct Hs as [Hs0' Hs1'], Hl as [Hl0' Hl1'].
  pose proof (chroma_bounds h _ _ Hs0' Hs1' Hl0' Hl1') as Hb.
  unfold hsl_to_hex. cbv zeta in Hb |- *.
  set (c := (1 - Qabs (2 * (l_pct / 100) - 1)) * (s_pct / 100)) in *.
  set (x := c * (1 - Qabs (Py.mod_ (h / 60) 2 - 1))) in *.
  set (m := l_pct / 100 - c / 2) in *.
  destruct Hb as (Hx0 & Hxc & _ & _).
  assert (Hzx : (Py.round ((0 + m) * 255) <= Py.round ((x + m) * 255))%Z)
    by (apply round_mono; lra).
  assert (Hxc' : (Py.round ((x + m) * 255) <= Py.round ((c + m) * 255))%Z)
    by (apply round_mono; lra).
  destruct (Py.ltb h 60) eqn:H60;
    [| destruct (Py.ltb h 120) eqn:H120;
       [| destruct (Py.ltb h 180) eqn:H180;
          [| destruct (Py.ltb h 240) eqn:H240;
             [| destruct (Py.ltb h 300) eqn:H300]]]];
    rewrite ?ltb_lt, ?ltb_ge in *;
    do 3 eexists; (split; [reflexivity |]);
    repeat split; intros; first [lia | exfalso; lra].
Qed.

Lemma hsl_to_hex_channel_order_witness :
  exists r g b : Z,
    hsl_to_hex 30 70 50 =
      ("#" ++ Py.format_02x r ++ Py.format_02x g ++ Py.format_02x b)%string /\
    (b <= g <= r)%Z.
Proof.
  destruct (hsl_to_hex_channel_order 30 70 50) as (r & g & b & Heq & H60 & _);
    [vm_compute; congruence .. |].
  exists r, g, b. split; [exact Heq |]. apply H60. vm_compute. reflexivity.
Defined.

End ColourMore.

(** ** More on the driver *)

Section DriverMore.

Variable str_float : R -> string.

Ltac run_cases E w :=
  let e := fresh "e" in
  let Hmk := fresh "Hmk" in
  let Hat := fresh "Hat" in
  let He := fresh "He" in
  let Hop := fresh "Hop" in
  destruct (makedirs_raises E (Py.dirname OUTPUT_PATH)) as [e |] eqn:Hmk;
  [ rewrite (main_makedirs_raises str_float E w e Hmk)
  | destruct (attempt_raises str_float E) as [e |] eqn:Hat;
    [ destruct (is_ImportError e) eqn:He;
      [ rewrite (main_fallback str_float E w e Hmk Hat He);
        destruct (open_raises E svg_path) eqn:Hop
      | rewrite (main_other_exception str_float E w e Hmk Hat He) ]
    | rewrite (main_rasterized str_float E w Hmk Hat) ] ].

Lemma svg_path_not_output : svg_path <> OUTPUT_PATH.
Proof. discriminate. Qed.

(** X14: a run changes at most one file, the PNG or the SVG next to it,
    never both and never any other; it removes no directory and only adds
    lines to what was printed. *)
Theorem main_touches_one_file (E : env) (w : world) :
  let w' := fst (main str_float E w) in
  ((forall p, p <> OUTPUT_PATH -> files w' !! p = files w !! p) \/
   (forall p, p <> svg_path -> files w' !! p = files w !! p)) /\
  (forall p, p <> OUTPUT_PATH -> p <> svg_path -> files w' !! p = files w !! p) /\
  dirs w ⊆ dirs w' /\
  exists printed, stdout w' = (stdout w ++ printed)%list.
Proof.
  cbv zeta. run_cases E w; unfold with_output_dir; cbn [fst files dirs stdout];
    (split; [| split; [| split; [set_solver |]]]).
  - now left.
  - reflexivity.
  - exists []. now rewrite app_nil_r.
  - now left.
  - reflexivity.
  - exists []. now rewrite app_nil_r.
  - right. intros p Hp. now apply lookup_insert_ne.
  - intros p _ Hp. now apply lookup_insert_ne.
  - eexists. reflexivity.
  - now left.
  - reflexivity.
  - exists []. now rewrite app_nil_r.
  - left. intros p Hp. now apply lookup_insert_ne.
  - intros p Hp _. now apply lookup_insert_ne.
  - eexists. reflexivity.
Qed.

Lemma dir_again (d : string) (X : gset string) : {[ d ]} ∪ ({[ d ]} ∪ X) = {[ d ]} ∪ X.
Proof. rewrite (assoc_L (∪)). now rewrite union_idemp_L. Qed.

(** X15: running the driver again in the same surroundings ends the
    same way and leaves the files and the directories as the first run left
    them: the directory creation accepts an existing directory and the output
    file is overwritten with the same content. *)
Theorem main_rerun (E : env) (w : world) :
  let first := main str_float E w in
  let second := main str_float E (fst first) in
  snd second = snd first /\
  files (fst second) = files (fst first) /\
  dirs (fst second) = dirs (fst first).
Proof.
  cbv zeta. run_cases E w; cbn [fst snd].
  - rewrite (main_makedirs_raises str_float E w e Hmk). easy.
  - rewrite (main_fallback str_float E _ e Hmk Hat He), Hop.
    unfold with_output_dir. cbn [fst snd files dirs].
    split; [reflexivity | split; [reflexivity | apply dir_again]].
  - rewrite (main_fallback str_float E _ e Hmk Hat He), Hop.
    cbn [fst snd files dirs].
    split; [reflexivity | split; [apply insert_insert_eq | apply dir_again]].
  - rewrite (main_other_exception str_float E _ e Hmk Hat He).
    unfold with_output_dir. cbn [fst snd files dirs].
    split; [reflexivity | split; [reflexivity | apply dir_again]].
  - rewrite (main_rasterized str_float E _ Hmk Hat).
    cbn [fst snd files dirs].
    split; [reflexivity | split; [apply insert_insert_eq | apply dir_again]].
Qed.

(** X16: the driver reports what it did.  A run that returns has printed
    a first new line starting with [Wrote] and the path of a file that now
    exists, in a directory that now exists; a run that raises has printed
    nothing. *)
Theorem main_reports_the_file (E : env) (w : world) :
  let w' := fst (main str_float E w) in
  match snd (main str_float E w) with
  | inr _ =>
      exists p line more,
        stdout w' = (stdout w ++ line :: more)%list /\
        String.prefix (Py.fstring [ "Wrote "; p ]) line = true /\
        is_Some (files w' !! p) /\
        Py.dirname p ∈ dirs w'
  | inl _ => stdout w' = stdout w
  end.
Proof.
  cbv zeta. run_cases E w; unfold with_output_dir; cbn [fst snd files dirs stdout];
    try reflexivity.
  - exists svg_path, notice, [ hint ].
    split; [reflexivity |]. split; [reflexivity |].
    split; [rewrite lookup_insert_eq; eauto | set_solver].
  - exists OUTPUT_PATH, (Py.fstring [ "Wrote "; OUTPUT_PATH ]), [].
    split; [reflexivity |]. split; [reflexivity |].
    split; [rewrite lookup_insert_eq; eauto | set_solver].
Qed.

End DriverMore.

(** ** The control points of the flower *)

Section ControlPoints.

Local Open Scope R_scope.

Lemma flat_map_pair {A B C : Type} (f : B -> C) (g1 g2 : A -> B) (l : list A) :
  flat_map (fun j => [ f (g1 j); f (g2 j) ]) l =
  map f (flat_map (fun j => [ g1 j; g2 j ]) l).
Proof. induction l as [| a l IH]; [reflexivity |]. cbn. now rewrite IH. Qed.

(** Points of one circle at increasing angles that span less than a full
    turn are pairwise different. *)
Lemma NoDup_polar_sorted (cx cy r lo : R) (angles : list R) :
  r <> 0 ->
  ForallOrdPairs Rlt angles ->
  Forall (fun a => lo <= a < lo + 360) angles ->
  List.NoDup (map (polar cx cy r) angles).
Proof.
  intros Hr Hsorted. induction Hsorted as [| a l Ha Hl IH]; intros Hrange.
  - constructor.
  - inversion Hrange as [| ? ? Hra Hrl]; subst.
    cbn [map]. constructor; [| now apply IH].
    intros Hin. apply in_map_iff in Hin as (b & Heq & Hb).
    rewrite List.Forall_forall in Ha, Hrl.
    specialize (Ha b Hb). specialize (Hrl b Hb).
    apply (polar_distinct cx cy r b a Hr); [lra | exact Heq].
Qed.

(** X18: the 16 control points of the 8 petals are pairwise different:
    no two petals share a handle. *)
Theorem control_points_distinct : List.NoDup Main.control_points.
Proof.
  unfold Main.control_points.
  rewrite (flat_map_pair (polar Main.cx Main.cy Main.petal_width)
             (fun j => Main.angle j - 20) (fun j => Main.angle j + 20)).
  apply (NoDup_polar_sorted _ _ _ (-20)).
  - unfold Main.petal_width. lra.
  - unfold Main.petals. cbn [seq flat_map app]. rewrite !angle_degrees. cbn [INR].
    repeat constructor; lra.
  - unfold Main.petals. cbn [seq flat_map app]. rewrite !angle_degrees. cbn [INR].
    repeat constructor; lra.
Qed.

End ControlPoints.

(** ** The driver and its document together *)

Section EndToEnd.

Variable str_float : R -> string.

Hypothesis str_float_text : forall x, float_text (str_float x) = true.

(** X19: when the rasterizer is missing and the fallback write succeeds,
    the file [public/apple-touch-icon.svg] holds the bytes of a document with
    exactly one [svg] element, one rectangle, one group, 8 paths and one
    circle, and the PNG path is left as it was. *)
Theorem main_fallback_document (E : env) (w : world) (e : exn) :
  makedirs_raises E (Py.dirname OUTPUT_PATH) = None ->
  attempt_raises str_float E = Some e -> is_ImportError e = true ->
  open_raises E svg_path = None ->
  let w' := fst (main str_float E w) in
  files w' !! OUTPUT_PATH = files w !! OUTPUT_PATH /\
  exists markup,
    files w' !! "public/apple-touch-icon.svg" = Some (Py.encode_utf8 markup) /\
    count_sub "<svg " markup = 1%nat /\
    count_sub "<rect" markup = 1%nat /\
    count_sub "<g " markup = 1%nat /\
    count_sub "<path" markup = 8%nat /\
    count_sub "<circle" markup = 1%nat.
Proof using str_float_text.
  intros Hmk Hat He Hop. cbv zeta.
  rewrite (main_fallback str_float E w e Hmk Hat He), Hop. cbn [fst files].
  split.
  - apply lookup_insert_ne. discriminate.
  - exists (Main.svg str_float).
    split; [apply (lookup_insert_eq (files w) svg_path) |].
    pose proof (svg_element_counts str_float str_float_text) as H.
    exact H.
Qed.

End EndToEnd.

(** ** The further statements on the concrete formatter *)

Section MoreInstances.

Lemma make_petal_path_attribute_safe_witness :
  no_char (ascii_of_nat 34) (make_petal_path floor_str 90 90 80 45) = true.
Proof.
  exact (proj1 (proj2 (make_petal_path_attribute_safe floor_str floor_str_text 90 90 80 45))).
Defined.

Lemma path_d_tokens_witness : length (tokens (Main.path_d floor_str)) = 80%nat.
Proof. exact (proj1 (proj2 (path_d_tokens floor_str floor_str_text))). Defined.

Lemma svg_tags_balanced_witness : count_sub "<" (Main.svg floor_str) = 15%nat.
Proof. exact (proj1 (proj2 (svg_tags_balanced floor_str floor_str_text))). Defined.

Lemma main_fallback_document_witness :
  exists markup,
    files (fst (main floor_str no_rasterizer empty_world)) !! "public/apple-touch-icon.svg"
      = Some (Py.encode_utf8 markup) /\
    count_sub "<svg " markup = 1%nat /\
    count_sub "<rect" markup = 1%nat /\
    count_sub "<g " markup = 1%nat /\
    count_sub "<path" markup = 8%nat /\
    count_sub "<circle" markup = 1%nat.
Proof.
  exact (proj2 (main_fallback_document floor_str floor_str_text no_rasterizer empty_world
                  (ImportErr "ModuleNotFoundError") eq_refl eq_refl eq_refl eq_refl)).
Defined.

End MoreInstances.
